(** * conv_net_sentence.py: the driver of the sentence classifier

    A shallow embedding of the pure parts of [conv_net_sentence.py]:
    the sentence encoder [sent2indices], the corpus reader [read_corpus],
    the fold splitter [kfold], the artifact written by [save] and read back
    by the prediction branch, the relabelling loop of the prediction branch
    and the cross-validation loop of the training branch.

    Conventions.
    - A Python 2 [str] is a [string] (a sequence of bytes); a Python [int] is
      a [Z]; a Python list and a numpy array are a [list]; the elements of a
      numpy integer array are represented by their integer values.
    - A [dict] keyed by words is a [gmap string Z].
    - An uncaught exception is [None] (or the [Raised] status of a run that
      has already printed something).
    - The process-wide random source of [numpy.random] is a state that is
      passed explicitly.
    - The network ([ConvNet]), its optimiser and [pickle] are collaborators
      that live outside this file; they appear as parameters. *)

From Stdlib Require Import ZArith Lia QArith Ascii String.
From Stdlib Require Import Strings.Byte.
From stdpp Require Import gmap strings.

Local Open Scope Z_scope.

(** ** Python list primitives *)

(** [[0] * n]: the list of [n] zeros, empty when [n <= 0]. *)
Definition zeros (n : Z) : list Z := replicate (Z.to_nat n) 0.

(** [len(l)] as a Python integer. *)
Definition len {A} (l : list A) : Z := Z.of_nat (length l).

(** ** Sentence encoder *)

(** The [for word in sent] loop of [sent2indices], started with the list [x]
    built so far.  [break] ends the loop with the current [x]. *)
Fixpoint sent_loop (word_index : gmap string Z) (max_l : Z)
    (sent : list string) (x : list Z) : list Z :=
  match sent with
  | [] => x
  | word :: rest =>
      match word_index !! word with
      | Some i =>
          if len x <? max_l
          then sent_loop word_index max_l rest (x ++ [i])
          else x
      | None => sent_loop word_index max_l rest x
      end
  end.

(** The number of zeros of the right padding: [max(0, max_l + 2 * pad - len(x))]. *)
Definition rpad_len (max_l pad : Z) (x : list Z) : Z :=
  Z.max 0 (max_l + 2 * pad - len x).

Definition sent2indices (sent : list string) (word_index : gmap string Z)
    (max_l pad : Z) : list Z :=
  let x := sent_loop word_index max_l sent (zeros pad) in
  let rpad := zeros (rpad_len max_l pad x) in
  x ++ rpad.

(** The vocabulary indices of the in-vocabulary words of a sentence, in the
    order of the sentence. *)
Definition known_indices (word_index : gmap string Z) (sent : list string)
    : list Z :=
  omap (λ word, word_index !! word) sent.

(** ** Python string primitives *)

Definition tab : ascii := "009"%char.
Definition newline : ascii := "010"%char.

(** [s.lower()] on a byte string: the letters [A]..[Z] are shifted, every
    other byte is kept. *)
Definition lower_char (c : ascii) : ascii :=
  let n := nat_of_ascii c in
  if ((65 <=? n) && (n <=? 90))%nat then ascii_of_nat (n + 32) else c.

Fixpoint str_lower (s : string) : string :=
  match s with
  | EmptyString => EmptyString
  | String c r => String (lower_char c) (str_lower r)
  end.

(** [s.strip()]: leading and trailing whitespace removed. *)
Fixpoint lstrip (s : string) : string :=
  match s with
  | EmptyString => EmptyString
  | String c r => if Ascii.is_space c then lstrip r else s
  end.

Definition rstrip (s : string) : string :=
  String.rev (lstrip (String.rev s)).

Definition strip (s : string) : string := rstrip (lstrip s).

(** [s.split(sep)] for a one-byte separator: empty fields are kept and the
    result is never empty. *)
Fixpoint split_on (sep : ascii) (s : string) : list string :=
  match s with
  | EmptyString => [EmptyString]
  | String c r =>
      if Ascii.eqb c sep then EmptyString :: split_on sep r
      else match split_on sep r with
           | field :: fields => String c field :: fields
           | [] => [String c EmptyString]
           end
  end.

(** [sep.join(l)]. *)
Fixpoint join (sep : string) (l : list string) : string :=
  match l with
  | [] => EmptyString
  | [s] => s
  | s :: r => s +:+ sep +:+ join sep r
  end.

(** Iterating over a [str] yields its bytes as one-byte strings. *)
Fixpoint chars (s : string) : list string :=
  match s with
  | EmptyString => []
  | String c r => String c EmptyString :: chars r
  end.

(** ** Python indexing and slicing *)

(** The position an index denotes: negative indices count from the end; an
    index out of range raises [IndexError]. *)
Definition norm_index {A} (l : list A) (i : Z) : option nat :=
  if (0 <=? i) && (i <? len l) then Some (Z.to_nat i)
  else if (- len l <=? i) && (i <? 0) then Some (Z.to_nat (len l + i))
  else None.

(** [l[i]]. *)
Definition getitem {A} (l : list A) (i : Z) : option A :=
  n ← norm_index l i; l !! n.

(** [l[i] = v]. *)
Definition setitem {A} (l : list A) (i : Z) (v : A) : option (list A) :=
  n ← norm_index l i; Some (<[n:=v]> l).

(** A slice bound brought into [[0, n]]: a negative bound counts from the
    end, and both ends are clamped. *)
Definition slice_bound (n i : Z) : Z :=
  if i <? 0 then Z.max 0 (i + n) else Z.min i n.

(** [l[start:stop]]. *)
Definition slice {A} (l : list A) (start stop : Z) : list A :=
  let lo := slice_bound (len l) start in
  let hi := slice_bound (len l) stop in
  take (Z.to_nat (hi - lo)) (drop (Z.to_nat lo) l).

(** [l[:stop]] and [l[start:]]. *)
Definition slice_to {A} (l : list A) (stop : Z) : list A := slice l 0 stop.
Definition slice_from {A} (l : list A) (start : Z) : list A :=
  slice l start (len l).

(** ** Corpus reader *)

(** The body of the [for line in f] loop of [read_corpus].  The text field is
    handed to [sent2indices] as the [str] it is, so the encoder iterates over
    its bytes. *)
Definition read_line (word_index : gmap string Z) (max_l pad : Z)
    (lower : bool) (textField : Z) (line : string) : option (list Z) :=
  let fields := split_on tab (strip line) in
  text ← getitem fields textField;
  let text := if lower then str_lower text else text in
  Some (sent2indices (chars text) word_index max_l pad).

(** The loop of [read_corpus], on the lines of the file (each with its end
    of line): the list [corpus] of the rows, before it is turned into an
    array by [np_array_int32] below. *)
Definition read_corpus (lines : list string) (word_index : gmap string Z)
    (max_l pad : Z) (lower : bool) (textField : Z) : option (list (list Z)) :=
  mapM (read_line word_index max_l pad lower textField) lines.

(** [np.array(corpus, dtype="int32")] on a list of rows.  Rows of unequal
    lengths raise [ValueError].  An element inside the int32 range is kept;
    what becomes of an element outside it, an exception or a wrapped value,
    is left to [overflow]. *)
Definition int32_cast (overflow : Z → option Z) (v : Z) : option Z :=
  if (- 2 ^ 31 <=? v) && (v <? 2 ^ 31) then Some v else overflow v.

Definition rectangular (rows : list (list Z)) : bool :=
  match rows with
  | [] => true
  | row :: rest => forallb (λ r, length r =? length row)%nat rest
  end.

Definition np_array_int32 (overflow : Z → option Z) (rows : list (list Z))
    : option (list (list Z)) :=
  if rectangular rows then mapM (mapM (int32_cast overflow)) rows else None.

(** [read_corpus] with its last line, the conversion of [corpus] to an int32
    array. *)
Definition read_corpus_int32 (overflow : Z → option Z) (lines : list string)
    (word_index : gmap string Z) (max_l pad : Z) (lower : bool)
    (textField : Z) : option (list (list Z)) :=
  corpus ← read_corpus lines word_index max_l pad lower textField;
  np_array_int32 overflow corpus.

(** ** Fold splitter *)

(** What the generator [kfold] yields: a bare index array on the [folds < 2]
    path, a pair (train, test) on the other. *)
Inductive yielded : Type :=
  | Indices (indices : list Z)
  | Split (train test : list Z).

(** [np.arange(n, dtype=np.int32)]: the integers from 0 up to [n - 1]. *)
Definition arange (n : Z) : list Z := seqZ 0 n.

(** [a[:m] += 1] on an array. *)
Definition incr_prefix (a : list Z) (m : Z) : list Z :=
  let k := Z.to_nat (slice_bound (len a) m) in
  (Z.add 1 <$> take k a) ++ drop k a.

(** [(n // folds) * np.ones(folds)] followed by [fold_sizes[:n % folds] += 1]. *)
Definition fold_sizes (n_samples folds : Z) : list Z :=
  let sizes := Z.mul (n_samples / folds) <$> replicate (Z.to_nat folds) 1 in
  incr_prefix sizes (n_samples mod folds).

(** The [for fold_size in fold_sizes] loop, from the position [current]. *)
Fixpoint kfold_loop (indices : list Z) (sizes : list Z) (current : Z)
    : list yielded :=
  match sizes with
  | [] => []
  | fold_size :: rest =>
      let start := current in
      let stop := current + fold_size in
      Split (slice_to indices start ++ slice_from indices stop)
            (slice indices start stop)
        :: kfold_loop indices rest stop
  end.

(** [kfold]: the sequence of the values the generator yields, and the random
    source after it.  [shuffle] is [np.random.shuffle].  The body of the
    generator runs when the first value is asked for; nothing else draws
    from the random source between the call and that moment. *)
Definition kfold {rng : Type} (shuffle : list Z → rng → list Z * rng)
    (n_samples folds : Z) (g : rng) : list yielded * rng :=
  let indices := arange n_samples in
  if folds <? 2 then ([Indices indices], g)
  else
    let '(indices, g) := shuffle indices g in
    (kfold_loop indices (fold_sizes n_samples folds) 0, g).

(** The sum of a list of integers. *)
Definition Zsum (l : list Z) : Z := foldr Z.add 0 l.

(** The test components of the pairs of a sequence of yielded values. *)
Definition test_sets (items : list yielded) : list (list Z) :=
  omap (λ item, match item with
                | Split _ test => Some test
                | Indices _ => None
                end) items.

(** ** Model artifact *)

(** A collaborator that writes a value to a stream and reads one back from
    the front of a stream, returning the rest of the stream. *)
Record codec (A : Type) : Type := Codec {
  dump : A → list byte;
  load : list byte → option (A * list byte)
}.
Arguments Codec {A} _ _.
Arguments dump {A} _ _.
Arguments load {A} _ _.

(** The record that [save] pickles after the model:
    [(word_index, max_l, pad, labels)]. *)
Definition metadata : Type := gmap string Z * Z * Z * list string.

(** [save]: the file is opened for writing, the network writes itself, then
    the metadata record is pickled to the same file. *)
Definition save {model : Type} (net : codec model) (pickle : codec metadata)
    (cnn : model) (word_index : gmap string Z) (max_l pad : Z)
    (labels : list string) : list byte :=
  let mfile := [] in
  let mfile := mfile ++ dump net cnn in
  let mfile := mfile ++ dump pickle (word_index, max_l, pad, labels) in
  mfile.

(** The first lines of the prediction branch: [ConvNet.load(mfile)] followed
    by [pickle.load(mfile)] on what is left of the file. *)
Definition load_artifact {model : Type} (net : codec model)
    (pickle : codec metadata) (mfile : list byte) : option (model * metadata) :=
  '(cnn, mfile) ← load net mfile;
  '(meta, _) ← load pickle mfile;
  Some (cnn, meta).

(** ** Prediction branch: relabelling *)

(** The body of the relabelling loop: the printed record for one line and
    one predicted class. *)
Definition relabel (labels : list string) (tagField : Z) (line : string)
    (y : Z) : option string :=
  let tokens := split_on tab line in
  label ← getitem labels y;
  tokens ← setitem tokens tagField label;
  Some (join (String tab EmptyString) tokens).

(** How a run that prints ends. *)
Inductive status : Type := Finished | Raised.

Fixpoint relabel_loop (labels : list string) (tagField : Z)
    (pairs : list (string * Z)) : list string * status :=
  match pairs with
  | [] => ([], Finished)
  | (line, y) :: rest =>
      match relabel labels tagField line y with
      | None => ([], Raised)
      | Some record =>
          let '(printed, st) := relabel_loop labels tagField rest in
          (record :: printed, st)
      end
  end.

(** [for line, y in zip(open(args.input), results): ...]: the records
    printed and how the loop ended. *)
Definition relabel_all (labels : list string) (tagField : Z)
    (lines : list string) (results : list Z) : list string * status :=
  relabel_loop labels tagField (zip lines results).

(** The prediction branch: the artifact is loaded, the input file is read and
    encoded with the restored metadata, the network predicts, and the lines
    of the input file are relabelled.  [predict] is the function of that
    name, which runs the network; [input] is the input file, line by line. *)
Definition predict_branch {model : Type} (net : codec model)
    (pickle : codec metadata)
    (predict : model → list (list Z) → list Z)
    (mfile : list byte) (input : list string) (lower : bool)
    (textField tagField : Z) : option (list string * status) :=
  '(cnn, (word_index, max_l, pad, labels)) ← load_artifact net pickle mfile;
  test_set_x ← read_corpus input word_index max_l pad lower textField;
  let results := predict cnn test_set_x in
  Some (relabel_all labels tagField input results).

(** ** Training branch: cross-validation *)

(** A value bound by [train_fold, test_fold = folds.next()]: an index array
    when a pair was yielded, a single index when a two-element array was. *)
Inductive fold_index : Type :=
  | Scalar (i : Z)
  | Array (a : list Z).

Definition unpack2 (item : yielded) : option (fold_index * fold_index) :=
  match item with
  | Split train test => Some (Array train, Array test)
  | Indices [a; b] => Some (Scalar a, Scalar b)
  | Indices _ => None
  end.

(** The [for i in range(cv)] loop, over what its body does with the train
    component: [fit train_fold g] is the accuracy that the body obtains, or
    [None] when the body raises.  The body of the source is [train_on_fold]
    below. *)
Fixpoint cv_loop {rng : Type} (fit : fold_index → rng → option (Q * rng))
    (count : nat) (folds : list yielded) (g : rng) (results : list Q)
    : option (list Q * rng) :=
  match count with
  | O => Some (results, g)
  | S count' =>
      match folds with
      | [] => None
      | item :: folds' =>
          '(train_fold, _) ← unpack2 item;
          '(perf, g') ← fit train_fold g;
          cv_loop fit count' folds' g' (results ++ [perf])
      end
  end.

(** An entry of the accuracy list: what [fit] returned on the train
    component unpacked from a yielded value. *)
Definition fold_accuracy {rng : Type}
    (fit : fold_index → rng → option (Q * rng)) (item : yielded) (perf : Q)
    : Prop :=
  ∃ train test g g',
    unpack2 item = Some (train, test) ∧ fit train g = Some (perf, g').

Definition Qsum (l : list Q) : Q := fold_left Qplus l (0%Q).

(** [np.mean(results)], on accuracies taken as exact rationals: the sum
    divided by the count, without the rounding of floating point. *)
Definition mean (results : list Q) : Q :=
  (Qsum results / inject_Z (len results))%Q.

(** The cross-validation of the training branch: the accuracies of the
    folds and the reported average. *)
Definition cross_validation {rng : Type} (seed : Z → rng)
    (shuffle : list Z → rng → list Z * rng)
    (fit : fold_index → rng → option (Q * rng))
    (n_sents args_cv : Z) : option (list Q * Q) :=
  let g := seed 3435 in
  let cv := if args_cv <? 2 then 1 else args_cv in
  let '(folds, g) := kfold shuffle n_sents cv g in
  '(results, _) ← cv_loop fit (Z.to_nat cv) folds g [];
  Some (results, mean results).

(** [train[train_fold]], where [train] is a Python list of rows: a numpy
    integer scalar is used as an index, and so is an integer array of
    exactly one element; an array of any other size raises [TypeError]. *)
Definition select_fold (train : list (list Z)) (train_fold : fold_index)
    : option (list Z) :=
  match train_fold with
  | Scalar i => getitem train i
  | Array [i] => getitem train i
  | Array _ => None
  end.

(** The body of the loop of the source after the unpacking:
    [cnn.train(train[train_fold], ...)] on a fresh network.  [net_train] is
    the construction of the network and of the optimiser and the training
    on the data it is given. *)
Definition train_on_fold {rng : Type}
    (net_train : list Z → rng → option (Q * rng)) (train : list (list Z))
    (train_fold : fold_index) (g : rng) : option (Q * rng) :=
  data ← select_fold train train_fold; net_train data g.

(** The training branch from the second seeding on: the folds are drawn over
    the rows of [train], one for each sentence. *)
Definition training_run {rng : Type} (seed : Z → rng)
    (shuffle : list Z → rng → list Z * rng)
    (net_train : list Z → rng → option (Q * rng)) (train : list (list Z))
    (args_cv : Z) : option (list Q * Q) :=
  cross_validation seed shuffle (train_on_fold net_train train)
                   (len train) args_cv.

(** ** Training branch: the vocabulary

    [word_index = {w:i for i,w in enumerate(words)}]: the words are entered
    in the order of the list with their positions, so a word that occurs
    again replaces its earlier entry. *)
Fixpoint enumerate_into (i : Z) (words : list string) (d : gmap string Z)
    : gmap string Z :=
  match words with
  | [] => d
  | w :: rest => enumerate_into (i + 1) rest (<[w := i]> d)
  end.

Definition word_index_of (words : list string) : gmap string Z :=
  enumerate_into 0 words ∅.

(** ** The corpus reader as the specification words it

    The reader the specification describes: the text field is lowercased on
    request, split into whitespace tokens, and the tokens are encoded.  It is
    only compared with [read_line]. *)
Definition read_line_tokens (word_index : gmap string Z) (max_l pad : Z)
    (lower : bool) (textField : Z) (line : string) : option (list Z) :=
  let fields := split_on tab (strip line) in
  text ← getitem fields textField;
  let text := if lower then str_lower text else text in
  Some (sent2indices (String.words text) word_index max_l pad).

(** ** Sample collaborators

    Concrete instances of the parameters, used to run the definitions. *)

(** A tab-separated record with its end of line. *)
Definition record (fields : list string) : string :=
  join (String tab EmptyString) fields +:+ String newline EmptyString.

(** A self-delimiting format for any countable type: the bits of the code of
    the value, least significant first, one byte for each, closed by the
    byte 2. *)
Fixpoint bits_dump (p : positive) : list byte :=
  match p with
  | xH => [x02]
  | xO p => x00 :: bits_dump p
  | xI p => x01 :: bits_dump p
  end.

Fixpoint bits_load (s : list byte) : option (positive * list byte) :=
  match s with
  | x00 :: s => '(p, rest) ← bits_load s; Some (xO p, rest)
  | x01 :: s => '(p, rest) ← bits_load s; Some (xI p, rest)
  | x02 :: s => Some (xH, s)
  | _ => None
  end.

Definition bits_codec (A : Type) `{Countable A} : codec A :=
  Codec (λ v, bits_dump (encode v))
        (λ s, '(p, rest) ← bits_load s; v ← decode p; Some (v, rest)).

(** An artifact written with the sample format, and a network that returns
    a single prediction whatever the number of rows. *)
Definition sample_artifact : list byte :=
  save (bits_codec (list Z)) (bits_codec metadata) [3; -1]
       {["great" := 1; "movie" := 2]} 5 1 ["neg"; "pos"].

Definition one_prediction (cnn : list Z) (test_set_x : list (list Z))
    : list Z :=
  [1].

(** The reversal as a shuffle that leaves the random source alone. *)
Definition reverse_shuffle (l : list Z) (g : unit) : list Z * unit :=
  (reverse l, g).

(** Five training rows, each an encoded sentence followed by its label, and
    a network whose training always ends with the accuracy 1/2. *)
Definition five_rows : list (list Z) :=
  [[0; 1; 0; 0]; [0; 2; 0; 1]; [0; 3; 0; 0]; [0; 1; 0; 1]; [0; 2; 0; 0]].

Definition half_net_train (data : list Z) (g : unit) : option (Q * unit) :=
  Some ((1 # 2)%Q, g).

(** * Properties *)

(** ** Sentence encoder *)

Section encoder.
Context (word_index : gmap string Z) (max_l : Z).

Lemma len_app {A} (l k : list A) : len (l ++ k) = len l + len k.
Proof. unfold len. rewrite length_app. lia. Qed.

Lemma len_zeros n : len (zeros n) = Z.max 0 n.
Proof. unfold len, zeros. rewrite length_replicate. lia. Qed.

(** The loop only appends: its result is the start list followed by a
    prefix of the known indices of the sentence, and the prefix is the
    longest one that keeps the whole list within [max_l]. *)
Lemma sent_loop_spec sent x :
  ∃ k : nat,
    sent_loop word_index max_l sent x
      = x ++ take k (known_indices word_index sent)
    ∧ (k ≤ length (known_indices word_index sent))%nat
    ∧ Z.of_nat k = Z.min (len (known_indices word_index sent))
                         (Z.max 0 (max_l - len x)).
Proof.
  revert x. induction sent as [|word rest IH]; intros x; simpl.
  - exists 0%nat. rewrite app_nil_r. unfold len. simpl. repeat split; lia.
  - unfold known_indices. simpl. fold (known_indices word_index rest).
    destruct (word_index !! word) as [i|] eqn:Hw; simpl.
    + destruct (Z.ltb_spec (len x) max_l) as [Hlt|Hge].
      * destruct (IH (x ++ [i])) as (k & Hk & Hle & Hmin).
        exists (S k). rewrite Hk, <- app_assoc. simpl.
        repeat split; [lia|].
        rewrite len_app in Hmin. unfold len in *. simpl in *. lia.
      * exists 0%nat. rewrite take_0, app_nil_r.
        repeat split; [lia|]. unfold len in *. simpl. lia.
    + apply IH.
Qed.

(** Every prefix of the known indices is the image of a subsequence of the
    sentence, word by word. *)
Lemma known_indices_prefix sent (k : nat) :
  ∃ words : list string,
    sublist words sent
    ∧ Forall2 (λ word z, word_index !! word = Some z)
              words (take k (known_indices word_index sent)).
Proof.
  revert k. induction sent as [|word rest IH]; intros k.
  - exists []. split; [constructor|].
    unfold known_indices. simpl. rewrite take_nil. constructor.
  - unfold known_indices. simpl. fold (known_indices word_index rest).
    destruct (word_index !! word) as [i|] eqn:Hw; simpl.
    + destruct k as [|k].
      * exists []. split; [apply sublist_nil_l | constructor].
      * destruct (IH k) as (words & Hsub & Himg).
        exists (word :: words). split; [by apply sublist_skip|].
        simpl. by constructor.
    + destruct (IH k) as (words & Hsub & Himg).
      exists words. split; [by apply sublist_cons | done].
Qed.

Lemma known_indices_none sent :
  (∀ word, word ∈ sent → word_index !! word = None) →
  known_indices word_index sent = [].
Proof.
  induction sent as [|word rest IH]; intros Hoov; [done|].
  unfold known_indices. simpl. rewrite (Hoov word) by left. simpl.
  apply IH. intros w Hw. apply Hoov. by right.
Qed.

Lemma Forall_zeros n : Forall (λ z, z = 0) (zeros n).
Proof. unfold zeros. by apply Forall_replicate. Qed.

End encoder.

(** X5. The shape of an encoded sentence: the left padding, then the first
    [k] vocabulary indices of its known words, then zeros, where [k] is the
    number of known words capped by what [max_l] leaves after the left
    padding, [max(0, max_l - max(0, pad))]. *)
Lemma sent2indices_shape (sent : list string) (word_index : gmap string Z)
    (max_l pad : Z) :
  ∃ (k : nat) (r : Z),
    sent2indices sent word_index max_l pad
      = zeros pad ++ take k (known_indices word_index sent) ++ zeros r
    ∧ Z.of_nat k = Z.min (len (known_indices word_index sent))
                         (Z.max 0 (max_l - Z.max 0 pad)).
Proof.
  unfold sent2indices.
  destruct (sent_loop_spec word_index max_l sent (zeros pad))
    as (k & Hx & _ & Hk).
  rewrite len_zeros in Hk.
  exists k, (rpad_len max_l pad (sent_loop word_index max_l sent (zeros pad))).
  split; [|done]. rewrite Hx at 1. by rewrite <- app_assoc.
Qed.

(** C2. For every token sequence, vocabulary, [max_l >= 0] and [pad >= 0], the
    list returned by [sent2indices] has exactly [max_l + 2 * pad] elements;
    the count of right-padding zeros is never negative, and under these
    bounds the clamp at 0 is not even reached. *)
Theorem sent2indices_length (sent : list string) (word_index : gmap string Z)
    (max_l pad : Z) :
  0 ≤ max_l → 0 ≤ pad →
  len (sent2indices sent word_index max_l pad) = max_l + 2 * pad
  ∧ 0 ≤ rpad_len max_l pad (sent_loop word_index max_l sent (zeros pad))
  ∧ rpad_len max_l pad (sent_loop word_index max_l sent (zeros pad))
    = max_l + 2 * pad - len (sent_loop word_index max_l sent (zeros pad)).
Proof.
  intros Hl Hp. unfold sent2indices, rpad_len.
  destruct (sent_loop_spec word_index max_l sent (zeros pad))
    as (k & -> & Hle & Hk).
  rewrite !len_app, len_zeros. rewrite len_zeros in Hk.
  assert (len (take k (known_indices word_index sent)) = Z.of_nat k) as ->.
  { unfold len. rewrite length_take. lia. }
  rewrite ?len_zeros. unfold len in Hk. lia.
Qed.

Lemma sent2indices_length_witness :
  len (sent2indices ["a"; "b"; "c"] {["a" := 4; "c" := 7]} 5 2) = 5 + 2 * 2
  ∧ 0 ≤ rpad_len 5 2 (sent_loop {["a" := 4; "c" := 7]} 5 ["a"; "b"; "c"] (zeros 2))
  ∧ rpad_len 5 2 (sent_loop {["a" := 4; "c" := 7]} 5 ["a"; "b"; "c"] (zeros 2))
    = 5 + 2 * 2 - len (sent_loop {["a" := 4; "c" := 7]} 5 ["a"; "b"; "c"] (zeros 2)).
Proof.
  apply (sent2indices_length ["a"; "b"; "c"] {["a" := 4; "c" := 7]} 5 2); lia.
Defined.

(** C9. The first [pad] elements of the list returned by [sent2indices] are
    0, and a sentence whose words are all outside the vocabulary is encoded
    as a list of zeros (of the full length [max_l + 2 * pad] when neither
    is negative). *)
Theorem sent2indices_left_pad_and_unknown (sent : list string)
    (word_index : gmap string Z) (max_l pad : Z) :
  (∀ i : Z, 0 ≤ i < pad →
     sent2indices sent word_index max_l pad !! Z.to_nat i = Some 0)
  ∧ ((∀ word, word ∈ sent → word_index !! word = None) →
     Forall (λ z, z = 0) (sent2indices sent word_index max_l pad)
     ∧ (0 ≤ max_l → 0 ≤ pad →
        sent2indices sent word_index max_l pad = zeros (max_l + 2 * pad))).
Proof.
  unfold sent2indices. split.
  - intros i Hi.
    destruct (sent_loop_spec word_index max_l sent (zeros pad))
      as (k & -> & _ & _).
    rewrite <- app_assoc. rewrite lookup_app_l.
    + unfold zeros. apply lookup_replicate_2. lia.
    + unfold zeros. rewrite length_replicate. lia.
  - intros Hoov.
    destruct (sent_loop_spec word_index max_l sent (zeros pad))
      as (k & -> & _ & _).
    rewrite (known_indices_none _ _ Hoov), take_nil, app_nil_r.
    split.
    + apply Forall_app. split; apply Forall_zeros.
    + intros Hl Hp. unfold rpad_len. rewrite len_zeros. unfold zeros.
      rewrite <- replicate_add. f_equal. lia.
Qed.

Lemma sent2indices_left_pad_and_unknown_witness :
  sent2indices ["x"; "y"] {["a" := 4]} 3 2 !! Z.to_nat 1 = Some 0
  ∧ Forall (λ z, z = 0) (sent2indices ["x"; "y"] {["a" := 4]} 3 2)
  ∧ sent2indices ["x"; "y"] {["a" := 4]} 3 2 = zeros (3 + 2 * 2).
Proof.
  destruct (sent2indices_left_pad_and_unknown ["x"; "y"] {["a" := 4]} 3 2)
    as [Hpad Hoov].
  split; [apply Hpad; lia|].
  assert (∀ word, word ∈ ["x"; "y"] → ({["a" := 4]} : gmap string Z) !! word = None)
    as Hnone.
  { intros word Hw. apply list_elem_of_In in Hw.
    destruct Hw as [<-|[<-|[]]]; reflexivity. }
  destruct (Hoov Hnone) as [Hz Hfull].
  split; [exact Hz | apply Hfull; lia].
Defined.

(** C10. Every nonzero element of the list returned by [sent2indices] is the
    vocabulary index of a word of the sentence, and the content between the
    left padding and the right padding is the word-by-word image of a
    subsequence of the sentence: the indices keep the order of their words,
    one index for each occurrence taken. *)
Theorem sent2indices_content_order (sent : list string)
    (word_index : gmap string Z) (max_l pad : Z) :
  (∀ z, z ∈ sent2indices sent word_index max_l pad → z ≠ 0 →
     ∃ word, word ∈ sent ∧ word_index !! word = Some z)
  ∧ ∃ (words : list string) (content : list Z) (r : Z),
      sublist words sent
      ∧ Forall2 (λ word z, word_index !! word = Some z) words content
      ∧ sent2indices sent word_index max_l pad
        = zeros pad ++ content ++ zeros r.
Proof.
  unfold sent2indices.
  destruct (sent_loop_spec word_index max_l sent (zeros pad))
    as (k & Hx & _ & _).
  destruct (known_indices_prefix word_index sent k)
    as (words & Hsub & Himg).
  split.
  - intros z Hz Hnz. rewrite Hx in Hz.
    rewrite !elem_of_app in Hz.
    destruct Hz as [[Hz|Hz]|Hz].
    + by apply elem_of_replicate in Hz as [-> _].
    + destruct (proj1 (list_elem_of_lookup _ _) Hz) as [j Hj].
      destruct (Forall2_lookup_r _ _ _ _ _ Himg Hj) as (word & Hword & Hidx).
      exists word. split; [|done].
      eapply elem_of_sublist; [|exact Hsub]. by eapply list_elem_of_lookup_2.
    + by apply elem_of_replicate in Hz as [-> _].
  - exists words, (take k (known_indices word_index sent)),
      (rpad_len max_l pad (sent_loop word_index max_l sent (zeros pad))).
    repeat split; [done..|]. rewrite Hx at 1. by rewrite <- app_assoc.
Qed.

(** C3. The truncation test of [sent2indices] compares the length of the
    list built so far, left padding included, with [max_l]: with one pad
    position and [max_l = 2] a sentence of two known words keeps only the
    first of them, where the claim has both. *)
Theorem sent2indices_truncation_counts_pad :
  known_indices {["a" := 1; "b" := 2]} ["a"; "b"] = [1; 2]
  ∧ sent2indices ["a"; "b"] {["a" := 1; "b" := 2]} 2 1 = [0; 1; 0; 0]
  ∧ sent2indices ["a"; "b"] {["a" := 1; "b" := 2]} 2 1
    ≠ zeros 1 ++ [1; 2] ++ zeros 1.
Proof. repeat split. discriminate. Qed.

(** ** Fold splitter *)

Section slices.
Context {A : Type}.
Implicit Types l : list A.

Lemma slice_bound_inside n i : 0 ≤ i → i ≤ n → slice_bound n i = i.
Proof.
  intros H0 Hn. unfold slice_bound.
  destruct (Z.ltb_spec i 0); lia.
Qed.

(** A slice whose bounds lie inside the list, in order. *)
Lemma slice_inside l (start stop : Z) :
  0 ≤ start → start ≤ stop → stop ≤ len l →
  slice l start stop
    = take (Z.to_nat (stop - start)) (drop (Z.to_nat start) l).
Proof.
  intros H0 Hle Hlen. unfold slice.
  rewrite !slice_bound_inside by lia. done.
Qed.
End slices.

Lemma Zsum_app (l k : list Z) : Zsum (l ++ k) = Zsum l + Zsum k.
Proof. unfold Zsum. induction l as [|x l IH]; simpl; lia. Qed.

Lemma Zsum_replicate (n : nat) (x : Z) : Zsum (replicate n x) = Z.of_nat n * x.
Proof. unfold Zsum. induction n as [|n IH]; simpl; lia. Qed.

Lemma Zsum_nonneg (l : list Z) : Forall (λ s, 0 ≤ s) l → 0 ≤ Zsum l.
Proof. unfold Zsum. induction 1; simpl; lia. Qed.

(** The fold sizes: the first [n mod folds] folds have one element more than
    the quotient, the others have the quotient. *)
Lemma fold_sizes_spec (n folds : Z) :
  0 ≤ n → 0 < folds →
  fold_sizes n folds
    = replicate (Z.to_nat (n mod folds)) (n / folds + 1)
      ++ replicate (Z.to_nat (folds - n mod folds)) (n / folds).
Proof.
  intros Hn Hf. unfold fold_sizes, incr_prefix.
  pose proof (Z.mod_pos_bound n folds Hf) as Hm.
  rewrite fmap_replicate. unfold len. rewrite length_replicate.
  rewrite slice_bound_inside by lia.
  rewrite take_replicate, drop_replicate, fmap_replicate.
  f_equal; f_equal; lia.
Qed.

Lemma fold_sizes_sum (n folds : Z) :
  0 ≤ n → 0 < folds → Zsum (fold_sizes n folds) = n.
Proof.
  intros Hn Hf. rewrite fold_sizes_spec by done.
  pose proof (Z.mod_pos_bound n folds Hf) as Hm.
  rewrite Zsum_app, !Zsum_replicate, !Z2Nat.id by lia.
  pose proof (Z.div_mod n folds ltac:(lia)). nia.
Qed.

Lemma fold_sizes_nonneg (n folds : Z) :
  0 ≤ n → 0 < folds → Forall (λ s, 0 ≤ s) (fold_sizes n folds).
Proof.
  intros Hn Hf. rewrite fold_sizes_spec by done.
  pose proof (Z.div_pos n folds Hn Hf).
  apply Forall_app. split; apply Forall_replicate; lia.
Qed.

(** The loop yields one pair for each size; the test components are
    consecutive slices of the index array with the sizes of the list. *)
Lemma kfold_loop_tests (indices sizes : list Z) (current : Z) :
  Forall (λ s, 0 ≤ s) sizes → 0 ≤ current →
  current + Zsum sizes ≤ len indices →
  Forall2 (λ item test, ∃ train, item = Split train test)
          (kfold_loop indices sizes current)
          (test_sets (kfold_loop indices sizes current))
  ∧ Forall2 (λ test s, len test = s)
            (test_sets (kfold_loop indices sizes current)) sizes
  ∧ concat (test_sets (kfold_loop indices sizes current))
    = take (Z.to_nat (Zsum sizes)) (drop (Z.to_nat current) indices).
Proof.
  intros Hpos. revert current.
  induction Hpos as [|s sizes Hs Hpos IH]; intros current Hc Hlen.
  - simpl. repeat split; constructor.
  - pose proof (Zsum_nonneg sizes Hpos) as Hsum.
    change (Zsum (s :: sizes)) with (s + Zsum sizes) in *.
    destruct (IH (current + s)) as (Hpairs & Hsizes & Hcat); [lia..|].
    cbn [kfold_loop test_sets omap list_omap].
    fold (test_sets (kfold_loop indices sizes (current + s))).
    rewrite (slice_inside indices current (current + s)) by lia.
    replace (current + s - current) with s by lia.
    repeat split.
    + constructor; [eauto | done].
    + constructor; [|done].
      unfold len. rewrite length_take, length_drop. unfold len in Hlen. lia.
    + cbn [concat]. rewrite Hcat.
      replace (Z.to_nat (current + s)) with (Z.to_nat current + Z.to_nat s)%nat
        by lia.
      rewrite <- drop_drop, take_take_drop. f_equal. lia.
Qed.

Lemma Forall2_len_fmap (tests : list (list Z)) (sizes : list Z) :
  Forall2 (λ test s, len test = s) tests sizes → len <$> tests = sizes.
Proof. induction 1 as [|test s tests sizes Hs _ IH]; [done|]. cbn. by rewrite Hs, IH. Qed.

(** Lists whose concatenation has no repetition are pairwise disjoint. *)
Lemma NoDup_concat_disjoint (ls : list (list Z)) :
  NoDup (concat ls) →
  ∀ (i j : nat) (ti tj : list Z),
    i ≠ j → ls !! i = Some ti → ls !! j = Some tj →
    ∀ z, z ∈ ti → z ∉ tj.
Proof.
  induction ls as [|l ls IH]; intros Hnd i j ti tj Hij Hi Hj z Hzi Hzj.
  { by rewrite lookup_nil in Hi. }
  simpl in Hnd. apply NoDup_app in Hnd as (_ & Hdisj & Hrest).
  assert (∀ (k : nat) t, ls !! k = Some t → z ∈ t → z ∈ concat ls) as Hin.
  { intros k t Hk Hz. apply list_elem_of_In, in_concat.
    exists t. split; apply list_elem_of_In; [|done].
    by eapply list_elem_of_lookup_2. }
  destruct i as [|i], j as [|j]; simplify_eq/=.
  - eapply Hdisj; eauto.
  - eapply Hdisj; eauto.
  - eapply (IH Hrest i j); eauto.
Qed.

(** C1. For [n >= 0] and [folds >= 2], with a shuffle that permutes its
    argument, [kfold(n, folds)] yields [folds] pairs whose test components
    are pairwise disjoint, cover exactly the indices [0 .. n-1] without
    repetition, have [n // folds] elements plus one for exactly the first
    [n mod folds] folds, and have sizes that sum to [n]. *)
Theorem kfold_partition {rng : Type}
    (shuffle : list Z → rng → list Z * rng) (n folds : Z) (g : rng) :
  (∀ l g, (shuffle l g).1 ≡ₚ l) →
  0 ≤ n → 2 ≤ folds →
  let items := (kfold shuffle n folds g).1 in
  let tests := test_sets items in
  len items = folds
  ∧ Forall2 (λ item test, ∃ train, item = Split train test) items tests
  ∧ (∀ (i j : nat) (ti tj : list Z),
       i ≠ j → tests !! i = Some ti → tests !! j = Some tj →
       ∀ z, z ∈ ti → z ∉ tj)
  ∧ (∀ z, (∃ test, test ∈ tests ∧ z ∈ test) ↔ 0 ≤ z < n)
  ∧ NoDup (concat tests)
  ∧ (∀ (i : nat) (test : list Z), tests !! i = Some test →
       len test = n / folds + (if Z.of_nat i <? n mod folds then 1 else 0))
  ∧ Zsum (len <$> tests) = n.
Proof.
  intros Hshuffle Hn Hfolds items tests. subst tests items. unfold kfold.
  destruct (Z.ltb_spec folds 2) as [|_]; [lia|].
  specialize (Hshuffle (arange n) g).
  destruct (shuffle (arange n) g) as [indices g']. simpl in *.
  assert (len indices = n) as Hlen.
  { unfold len. rewrite (Permutation_length Hshuffle).
    unfold arange. rewrite length_seqZ. lia. }
  destruct (kfold_loop_tests indices (fold_sizes n folds) 0)
    as (Hpairs & Hsizes & Hcat).
  { apply fold_sizes_nonneg; lia. }
  { lia. }
  { rewrite fold_sizes_sum; lia. }
  rewrite fold_sizes_sum in Hcat by lia.
  change (Z.to_nat 0) with 0%nat in Hcat. rewrite drop_0 in Hcat.
  rewrite take_ge in Hcat by (unfold len in Hlen; lia).
  set (tests := test_sets (kfold_loop indices (fold_sizes n folds) 0)) in *.
  assert (NoDup (concat tests)) as Hnd.
  { rewrite Hcat, Hshuffle. apply NoDup_seqZ. }
  split_and!.
  - unfold len. rewrite (Forall2_length _ _ _ Hpairs).
    rewrite (Forall2_length _ _ _ Hsizes).
    rewrite fold_sizes_spec by lia.
    pose proof (Z.mod_pos_bound n folds ltac:(lia)).
    rewrite length_app, !length_replicate. lia.
  - exact Hpairs.
  - by apply NoDup_concat_disjoint.
  - intros z. split.
    + intros (test & Htest & Hz).
      assert (z ∈ concat tests) as Hin.
      { apply list_elem_of_In, in_concat. exists test.
        split; by apply list_elem_of_In. }
      rewrite Hcat, Hshuffle in Hin. apply elem_of_seqZ in Hin. lia.
    + intros Hz.
      assert (z ∈ concat tests) as Hin.
      { rewrite Hcat, Hshuffle. apply elem_of_seqZ. lia. }
      apply list_elem_of_In, in_concat in Hin as (test & Htest & Hin).
      exists test. split; by apply list_elem_of_In.
  - exact Hnd.
  - intros i test Hi.
    destruct (Forall2_lookup_l _ _ _ _ _ Hsizes Hi) as (s & Hs & ->).
    rewrite fold_sizes_spec in Hs by lia.
    pose proof (Z.mod_pos_bound n folds ltac:(lia)).
    destruct (Z.ltb_spec (Z.of_nat i) (n mod folds)).
    + rewrite lookup_app_l in Hs by (rewrite length_replicate; lia).
      apply lookup_replicate in Hs as [-> _]. done.
    + rewrite lookup_app_r in Hs by (rewrite length_replicate; lia).
      apply lookup_replicate in Hs as [-> _]. lia.
  - rewrite (Forall2_len_fmap _ _ Hsizes). apply fold_sizes_sum; lia.
Qed.

Lemma kfold_partition_witness :
  let items := (kfold reverse_shuffle 5 3 tt).1 in
  let tests := test_sets items in
  len items = 3
  ∧ Forall2 (λ item test, ∃ train, item = Split train test) items tests
  ∧ (∀ (i j : nat) (ti tj : list Z),
       i ≠ j → tests !! i = Some ti → tests !! j = Some tj →
       ∀ z, z ∈ ti → z ∉ tj)
  ∧ (∀ z, (∃ test, test ∈ tests ∧ z ∈ test) ↔ 0 ≤ z < 5)
  ∧ NoDup (concat tests)
  ∧ (∀ (i : nat) (test : list Z), tests !! i = Some test →
       len test = 5 / 3 + (if Z.of_nat i <? 5 mod 3 then 1 else 0))
  ∧ Zsum (len <$> tests) = 5.
Proof.
  apply (kfold_partition reverse_shuffle 5 3 tt).
  - intros l g. simpl. apply reverse_Permutation.
  - lia.
  - lia.
Defined.

(** C4. With [folds < 2] the generator yields one value, and that value is
    the bare index array, not a pair of an empty train component and the
    full range; the caller's unpacking into [(train_fold, test_fold)] raises
    on it. *)
Theorem kfold_single_fold_yields_bare_array {rng : Type}
    (shuffle : list Z → rng → list Z * rng) (g : rng) :
  (kfold shuffle 3 1 g).1 = [Indices [0; 1; 2]]
  ∧ (kfold shuffle 3 1 g).1 ≠ [Split [] [0; 1; 2]]
  ∧ test_sets (kfold shuffle 3 1 g).1 = []
  ∧ unpack2 (Indices [0; 1; 2]) = None.
Proof. repeat split. discriminate. Qed.

(** On the [folds < 2] path in general: one bare array, the range in order,
    and the random source untouched. *)
Lemma kfold_no_split {rng : Type} (shuffle : list Z → rng → list Z * rng)
    (n folds : Z) (g : rng) :
  folds < 2 → kfold shuffle n folds g = ([Indices (arange n)], g).
Proof.
  intros Hf. unfold kfold. by destruct (Z.ltb_spec folds 2); [|lia].
Qed.

(** ** Corpus reader *)

(** C5. [read_corpus] hands the text field to the encoder unsplit, so the
    encoder walks over bytes: the record [id<TAB>pos<TAB>hello world] with
    the vocabulary [hello -> 1, world -> 2] is read as seven zeros, where
    the encoding of its whitespace tokens is [0, 1, 2, 0, 0, 0, 0]. *)
Theorem read_corpus_encodes_bytes_not_tokens :
  read_corpus [record ["id"; "pos"; "hello world"]]
              {["hello" := 1; "world" := 2]} 5 1 true 2
    = Some [[0; 0; 0; 0; 0; 0; 0]]
  ∧ read_line_tokens {["hello" := 1; "world" := 2]} 5 1 true 2
                     (record ["id"; "pos"; "hello world"])
    = Some [0; 1; 2; 0; 0; 0; 0]
  ∧ String.words "hello world" = ["hello"; "world"]
  ∧ sent2indices ["hello"; "world"] {["hello" := 1; "world" := 2]} 5 1
    = [0; 1; 2; 0; 0; 0; 0].
Proof. repeat split. Qed.

(** What the reader does compute: one row for each line, in the order of the
    lines, each the encoding of the bytes of the text field. *)
Lemma read_corpus_rows (lines : list string) (word_index : gmap string Z)
    (max_l pad : Z) (lower : bool) (textField : Z) (rows : list (list Z)) :
  read_corpus lines word_index max_l pad lower textField = Some rows →
  Forall2 (λ line row,
             ∃ text, getitem (split_on tab (strip line)) textField = Some text
               ∧ row = sent2indices
                         (chars (if lower then str_lower text else text))
                         word_index max_l pad)
          lines rows.
Proof.
  unfold read_corpus. intros Hrows. apply mapM_Some in Hrows.
  eapply Forall2_impl; [exact Hrows|].
  intros line row Hrow. unfold read_line in Hrow.
  destruct (getitem _ textField) as [text|]; simplify_eq/=. eauto.
Qed.

(** ** Prediction branch *)

Lemma relabel_loop_spec (labels : list string) (tagField : Z)
    (pairs : list (string * Z)) :
  let printed := (relabel_loop labels tagField pairs).1 in
  let st := (relabel_loop labels tagField pairs).2 in
  (length printed ≤ length pairs)%nat
  ∧ (∀ (i : nat) rec, printed !! i = Some rec →
       ∃ line y, pairs !! i = Some (line, y)
                 ∧ relabel labels tagField line y = Some rec)
  ∧ (st = Finished ↔ length printed = length pairs)
  ∧ (st = Finished ↔
     ∀ (i : nat) line y, pairs !! i = Some (line, y) →
                         is_Some (relabel labels tagField line y)).
Proof.
  induction pairs as [|[line y] pairs IH]; simpl.
  { split_and!; [lia | by intros ? ? ? | done |].
    split; [by intros _ ? ? ? ?|done]. }
  destruct (relabel labels tagField line y) as [rec|] eqn:Hrec; simpl.
  - destruct (relabel_loop labels tagField pairs) as [printed st]. simpl in *.
    destruct IH as (Hlen & Hpos & Hfin & Hall).
    split_and!.
    + lia.
    + intros [|i] r Hi; simplify_eq/=; eauto.
    + rewrite Hfin. lia.
    + rewrite Hall. split.
      * intros H [|i] l z Hi; simplify_eq/=; eauto.
      * intros H i l z Hi. by apply (H (S i)).
  - split_and!; [lia | by intros ? ? ? | done |].
    split; [done|]. intros H. destruct (H 0%nat line y) as [? ?]; [done|].
    congruence.
Qed.

(** C6 as stated fails: with two input lines and one prediction the loop
    prints the first record and ends normally. *)
Lemma relabel_all_count_mismatch_not_fatal :
  length [record ["1"; "neg"; "great movie"]; record ["2"; "neg"; "bad"]]
    ≠ length [1]
  ∧ relabel_all ["neg"; "pos"] 1
      [record ["1"; "neg"; "great movie"]; record ["2"; "neg"; "bad"]] [1]
    = ([record ["1"; "pos"; "great movie"]], Finished)
  ∧ predict_branch (bits_codec (list Z)) (bits_codec metadata) one_prediction
      sample_artifact
      [record ["1"; "neg"; "great movie"]; record ["2"; "neg"; "bad"]]
      false 2 1
    = Some ([record ["1"; "pos"; "great movie"]], Finished).
Proof. split_and!; [discriminate | reflexivity | vm_compute; reflexivity]. Qed.

(** C6, amended. Predictions are paired with the input lines by position:
    the record printed at position [i] is line [i] relabelled with
    prediction [i], at most as many records are printed as the shorter of
    the two sequences has, and the loop ends normally exactly when it has
    printed that many, which is exactly when every paired relabelling
    succeeds; the two counts are not compared. *)
Theorem relabel_all_positional (labels : list string) (tagField : Z)
    (lines : list string) (results : list Z) :
  let printed := (relabel_all labels tagField lines results).1 in
  let st := (relabel_all labels tagField lines results).2 in
  (length printed ≤ length lines `min` length results)%nat
  ∧ (∀ (i : nat) rec, printed !! i = Some rec →
       ∃ line y, lines !! i = Some line ∧ results !! i = Some y
                 ∧ relabel labels tagField line y = Some rec)
  ∧ (st = Finished ↔
     length printed = (length lines `min` length results)%nat)
  ∧ (st = Finished ↔
     ∀ (i : nat) line y, lines !! i = Some line → results !! i = Some y →
                         is_Some (relabel labels tagField line y)).
Proof.
  unfold relabel_all.
  destruct (relabel_loop_spec labels tagField (zip lines results))
    as (Hlen & Hpos & Hfin & Hall).
  rewrite length_zip_with in Hlen, Hfin.
  split_and!; [done| |done|].
  - intros i rec Hi. destruct (Hpos i rec Hi) as (line & y & Hzip & Hrec).
    apply lookup_zip_with_Some in Hzip as (l & z & ? & ? & ?).
    simplify_eq. eauto.
  - rewrite Hall. split.
    + intros H i line y Hl Hy. apply (H i).
      apply lookup_zip_with_Some. eauto.
    + intros H i line y Hzip.
      apply lookup_zip_with_Some in Hzip as (l & z & ? & ? & ?).
      simplify_eq. eauto.
Qed.

(** ** Model artifact *)

Lemma bits_load_dump (p : positive) (rest : list byte) :
  bits_load (bits_dump p ++ rest) = Some (p, rest).
Proof. induction p as [p IH|p IH|]; simpl; by rewrite ?IH. Qed.

(** The sample format reads back what it wrote and leaves the rest of the
    stream. *)
Lemma bits_codec_framed {A : Type} `{Countable A} (v : A) (rest : list byte) :
  load (bits_codec A) (dump (bits_codec A) v ++ rest) = Some (v, rest).
Proof. simpl. rewrite bits_load_dump. simpl. by rewrite decode_encode. Qed.

(** C7. Whatever the network writes, as long as its [load] consumes exactly
    what its [save] wrote, and with a pickle that reads back what it dumped:
    [save] writes the network first and the metadata record after it, and
    loading the artifact, network first and then the metadata from the rest
    of the stream, returns the vocabulary, [max_l], [pad] and the label
    table that were saved. *)
Theorem load_save_metadata {model : Type} (net : codec model)
    (pickle : codec metadata) :
  (∀ cnn rest, ∃ cnn', load net (dump net cnn ++ rest) = Some (cnn', rest)) →
  (∀ meta, ∃ rest, load pickle (dump pickle meta) = Some (meta, rest)) →
  ∀ (cnn : model) (word_index : gmap string Z) (max_l pad : Z)
    (labels : list string),
    save net pickle cnn word_index max_l pad labels
      = dump net cnn ++ dump pickle (word_index, max_l, pad, labels)
    ∧ ∃ cnn', load_artifact net pickle
                (save net pickle cnn word_index max_l pad labels)
              = Some (cnn', (word_index, max_l, pad, labels)).
Proof.
  intros Hnet Hpickle cnn word_index max_l pad labels.
  split; [done|]. unfold save, load_artifact. simpl.
  destruct (Hnet cnn (dump pickle (word_index, max_l, pad, labels)))
    as [cnn' ->].
  simpl.
  destruct (Hpickle (word_index, max_l, pad, labels)) as [rest ->].
  by exists cnn'.
Qed.

Lemma load_save_metadata_witness :
  save (bits_codec (list Z)) (bits_codec metadata) [3; -1]
       {["hello" := 1; "world" := 2]} 5 1 ["neg"; "pos"]
    = dump (bits_codec (list Z)) [3; -1]
      ++ dump (bits_codec metadata)
           ({["hello" := 1; "world" := 2]}, 5, 1, ["neg"; "pos"])
  ∧ ∃ cnn', load_artifact (bits_codec (list Z)) (bits_codec metadata)
              (save (bits_codec (list Z)) (bits_codec metadata) [3; -1]
                    {["hello" := 1; "world" := 2]} 5 1 ["neg"; "pos"])
            = Some (cnn', ({["hello" := 1; "world" := 2]}, 5, 1, ["neg"; "pos"])).
Proof.
  apply (load_save_metadata (bits_codec (list Z)) (bits_codec metadata)).
  - intros cnn rest. exists cnn. apply bits_codec_framed.
  - intros meta. exists [].
    rewrite <- (app_nil_r (dump (bits_codec metadata) meta)).
    apply bits_codec_framed.
Defined.

(** ** Training branch *)

Section cross_validation.
Context {rng : Type} (fit : fold_index → rng → option (Q * rng)).

(** The loop appends one accuracy for each of the first [count] yielded
    values, in their order. *)
Lemma cv_loop_results (count : nat) (folds : list yielded) (g : rng)
    (acc results : list Q) (g' : rng) :
  cv_loop fit count folds g acc = Some (results, g') →
  ∃ perfs, results = acc ++ perfs
           ∧ length perfs = count
           ∧ Forall2 (fold_accuracy fit) (take count folds) perfs.
Proof.
  revert folds g acc.
  induction count as [|count IH]; intros folds g acc Hloop; simpl in Hloop.
  - simplify_eq. exists []. rewrite app_nil_r. split_and!; [done..|].
    rewrite take_0. constructor.
  - destruct folds as [|item folds]; [done|].
    destruct (unpack2 item) as [[train test]|] eqn:Hitem; [|done].
    simpl in Hloop.
    destruct (fit train g) as [[perf g1]|] eqn:Hfit; [|done].
    simpl in Hloop.
    destruct (IH _ _ _ Hloop) as (perfs & -> & Hlen & Hperfs).
    exists (perf :: perfs). rewrite <- app_assoc. split_and!; [done|simpl; lia|].
    simpl. constructor; [|done]. by exists train, test, g, g1.
Qed.

End cross_validation.

Lemma length_fold_sizes (n folds : Z) :
  length (fold_sizes n folds) = Z.to_nat folds.
Proof.
  unfold fold_sizes, incr_prefix.
  rewrite length_app, !length_fmap, length_take, length_drop.
  rewrite length_fmap, length_replicate. lia.
Qed.

(** Whenever the cross-validation reports, there is one accuracy for each
    fold, in the order of the folds, and the report is their sum divided by
    the number of folds. *)
Lemma cross_validation_report_is_mean {rng : Type} (seed : Z → rng)
    (shuffle : list Z → rng → list Z * rng)
    (fit : fold_index → rng → option (Q * rng)) (n args_cv : Z)
    (results : list Q) (report : Q) :
  cross_validation seed shuffle fit n args_cv = Some (results, report) →
  len results = (if args_cv <? 2 then 1 else args_cv)
  ∧ Forall2 (fold_accuracy fit)
            (take (Z.to_nat (if args_cv <? 2 then 1 else args_cv))
                  (kfold shuffle n (if args_cv <? 2 then 1 else args_cv)
                         (seed 3435)).1)
            results
  ∧ (report == Qsum results
               / inject_Z (if args_cv <? 2 then 1 else args_cv))%Q.
Proof.
  set (cv := if args_cv <? 2 then 1 else args_cv).
  assert (1 ≤ cv) as Hcv.
  { subst cv. destruct (Z.ltb_spec args_cv 2); lia. }
  unfold cross_validation. fold cv. intros Hrun.
  destruct (kfold shuffle n cv (seed 3435)) as [folds g] eqn:Hfolds.
  destruct (cv_loop fit (Z.to_nat cv) folds g []) as [[rs g']|] eqn:Hloop;
    simplify_eq/=.
  destruct (cv_loop_results fit _ _ _ _ _ _ Hloop)
    as (perfs & -> & Hlen & Hperfs). simpl.
  assert (len perfs = cv) as Hlen' by (unfold len; lia).
  split_and!; [done..|]. unfold mean. by rewrite Hlen'.
Qed.

(** C8. The report is meant to be the plain mean of the accuracies of the
    folds, but the loop cannot get that far: [train] is a list and the train
    component of a fold is an index array, so [train[train_fold]] raises on
    every fold that holds more than one index.  With five sentences and two
    folds, of three and two test indices, the first fold already raises and
    nothing is reported, whatever the network does. *)
Theorem cross_validation_raises_on_index_arrays
    (net_train : list Z → unit → option (Q * unit)) :
  (kfold reverse_shuffle (len five_rows) 2 tt).1
    = [Split [1; 0] [4; 3; 2]; Split [4; 3; 2] [1; 0]]
  ∧ select_fold five_rows (Array [1; 0]) = None
  ∧ train_on_fold net_train five_rows (Array [1; 0]) tt = None
  ∧ training_run (λ _, tt) reverse_shuffle net_train five_rows 2 = None.
Proof. split_and!; reflexivity. Qed.


(** * Further properties *)

(** ** Sentence encoder *)

Lemma known_indices_app (word_index : gmap string Z) (l k : list string) :
  known_indices word_index (l ++ k)
    = known_indices word_index l ++ known_indices word_index k.
Proof. unfold known_indices. apply omap_app. Qed.

Lemma known_indices_filter (word_index : gmap string Z) (sent : list string) :
  known_indices word_index
      (filter (λ word, is_Some (word_index !! word)) sent)
    = known_indices word_index sent.
Proof.
  induction sent as [|word rest IH]; [done|].
  rewrite filter_cons.
  destruct (decide (is_Some (word_index !! word))) as [[i Hi]|Hnone].
  - change (known_indices word_index (word :: ?l))
      with (from_option (λ i, i :: known_indices word_index l)
                        (known_indices word_index l) (word_index !! word)).
    by rewrite IH.
  - change (known_indices word_index (word :: rest))
      with (from_option (λ i, i :: known_indices word_index rest)
                        (known_indices word_index rest) (word_index !! word)).
    rewrite IH. destruct (word_index !! word) eqn:Hw; [|done].
    destruct Hnone. by eexists.
Qed.

(** The list built by the loop, from the left padding, in closed form. *)
Lemma sent_loop_zeros (word_index : gmap string Z) (max_l pad : Z)
    (sent : list string) :
  sent_loop word_index max_l sent (zeros pad)
    = zeros pad
      ++ take (Z.to_nat (Z.min (len (known_indices word_index sent))
                               (Z.max 0 (max_l - Z.max 0 pad))))
              (known_indices word_index sent).
Proof.
  destruct (sent_loop_spec word_index max_l sent (zeros pad))
    as (k & -> & _ & Hk).
  rewrite len_zeros in Hk. rewrite <- Hk, Nat2Z.id. done.
Qed.

(** With a non-negative pad the length of an encoded sentence does not
    depend on the sentence. *)
Lemma len_sent2indices (sent : list string) (word_index : gmap string Z)
    (max_l pad : Z) :
  0 ≤ pad →
  len (sent2indices sent word_index max_l pad)
    = Z.max pad (max_l + 2 * pad).
Proof.
  intros Hp. unfold sent2indices, rpad_len. rewrite sent_loop_zeros.
  rewrite !len_app, !len_zeros. unfold len. rewrite length_take. lia.
Qed.

(** X1. The encoding depends on the sentence only through the sequence of
    the vocabulary indices of its known words: two sentences with the same
    sequence get the same encoding, and in particular dropping the words
    that are not in the vocabulary changes nothing. *)
Theorem sent2indices_known_words_only (sent : list string)
    (word_index : gmap string Z) (max_l pad : Z) :
  (∀ sent', known_indices word_index sent' = known_indices word_index sent →
     sent2indices sent' word_index max_l pad
       = sent2indices sent word_index max_l pad)
  ∧ sent2indices (filter (λ word, is_Some (word_index !! word)) sent)
                 word_index max_l pad
    = sent2indices sent word_index max_l pad.
Proof.
  assert (∀ sent', known_indices word_index sent' = known_indices word_index sent →
     sent2indices sent' word_index max_l pad
       = sent2indices sent word_index max_l pad) as Hdep.
  { intros sent' Hk. unfold sent2indices.
    by rewrite !sent_loop_zeros, Hk. }
  split; [exact Hdep|]. apply Hdep, known_indices_filter.
Qed.

(** X2. A sentence whose known words fit in what [max_l] leaves after the
    left padding is encoded whole: the left padding, the indices of all its
    known words in order, and zeros up to [max_l + 2 * pad]. *)
Theorem sent2indices_short_sentence (sent : list string)
    (word_index : gmap string Z) (max_l pad : Z) :
  0 ≤ pad →
  len (known_indices word_index sent) ≤ max_l - pad →
  sent2indices sent word_index max_l pad
    = zeros pad ++ known_indices word_index sent
      ++ zeros (max_l + pad - len (known_indices word_index sent)).
Proof.
  intros Hp Hfit. unfold sent2indices, rpad_len. rewrite sent_loop_zeros.
  rewrite !take_ge by (unfold len in *; lia).
  rewrite <- app_assoc. do 3 f_equal.
  rewrite len_app, len_zeros. lia.
Qed.

Lemma sent2indices_short_sentence_witness :
  sent2indices ["a"; "x"; "b"] {["a" := 4; "b" := 7]} 5 2
    = zeros 2 ++ known_indices {["a" := 4; "b" := 7]} ["a"; "x"; "b"]
      ++ zeros (5 + 2 - len (known_indices {["a" := 4; "b" := 7]}
                                            ["a"; "x"; "b"])).
Proof.
  apply (sent2indices_short_sentence ["a"; "x"; "b"] {["a" := 4; "b" := 7]} 5 2).
  - lia.
  - vm_compute. discriminate.
Defined.

(** X3. Once a sentence has as many known words as [max_l] leaves after the
    left padding, whatever follows it has no effect on the encoding. *)
Theorem sent2indices_ignores_overflow (sent more : list string)
    (word_index : gmap string Z) (max_l pad : Z) :
  max_l - Z.max 0 pad ≤ len (known_indices word_index sent) →
  sent2indices (sent ++ more) word_index max_l pad
    = sent2indices sent word_index max_l pad.
Proof.
  intros Hfull. unfold sent2indices. rewrite !sent_loop_zeros.
  rewrite known_indices_app, len_app.
  assert (0 ≤ len (known_indices word_index more)) by (unfold len; lia).
  assert (0 ≤ len (known_indices word_index sent)) by (unfold len; lia).
  replace (Z.min (len (known_indices word_index sent)
                  + len (known_indices word_index more))
                 (Z.max 0 (max_l - Z.max 0 pad)))
    with (Z.min (len (known_indices word_index sent))
                (Z.max 0 (max_l - Z.max 0 pad))) by lia.
  rewrite take_app_le by (unfold len; lia). done.
Qed.

Lemma sent2indices_ignores_overflow_witness :
  sent2indices (["a"; "b"] ++ ["a"; "c"]) {["a" := 4; "b" := 7; "c" := 9]} 3 1
    = sent2indices ["a"; "b"] {["a" := 4; "b" := 7; "c" := 9]} 3 1.
Proof.
  apply (sent2indices_ignores_overflow ["a"; "b"] ["a"; "c"]
           {["a" := 4; "b" := 7; "c" := 9]} 3 1).
  vm_compute. discriminate.
Defined.

(** X4. When the pad is at least [max_l] no word is ever appended: every
    sentence is encoded as the same list of zeros. *)
Theorem sent2indices_pad_covers_max_l (sent : list string)
    (word_index : gmap string Z) (max_l pad : Z) :
  0 ≤ pad → max_l ≤ pad →
  sent2indices sent word_index max_l pad = zeros (Z.max pad (max_l + 2 * pad)).
Proof.
  intros Hp Hcover. unfold sent2indices, rpad_len. rewrite sent_loop_zeros.
  replace (Z.min (len (known_indices word_index sent))
                 (Z.max 0 (max_l - Z.max 0 pad))) with 0
    by (unfold len; lia).
  rewrite take_0, app_nil_r, len_zeros. unfold zeros.
  rewrite <- replicate_add. f_equal. lia.
Qed.

Lemma sent2indices_pad_covers_max_l_witness :
  sent2indices ["a"; "b"] {["a" := 4; "b" := 7]} 3 4
    = zeros (Z.max 4 (3 + 2 * 4)).
Proof.
  apply (sent2indices_pad_covers_max_l ["a"; "b"] {["a" := 4; "b" := 7]} 3 4);
    lia.
Defined.

(** ** Vocabulary *)

Lemma enumerate_into_absent (i : Z) (words : list string)
    (d : gmap string Z) (w : string) :
  w ∉ words → enumerate_into i words d !! w = d !! w.
Proof.
  revert i d. induction words as [|w0 rest IH]; intros i d Hw; [done|].
  apply not_elem_of_cons in Hw as [Hne Hrest]. simpl.
  rewrite IH by done. by rewrite lookup_insert_ne.
Qed.

(** A word is entered with the position of its last occurrence. *)
Lemma enumerate_into_last (i : Z) (words : list string)
    (d : gmap string Z) (w : string) (j : nat) :
  words !! j = Some w →
  (∀ j' : nat, (j < j')%nat → words !! j' ≠ Some w) →
  enumerate_into i words d !! w = Some (i + Z.of_nat j).
Proof.
  revert i d j. induction words as [|w0 rest IH]; intros i d j Hj Hlast.
  { by rewrite lookup_nil in Hj. }
  destruct j as [|j]; simpl in *.
  - simplify_eq. rewrite enumerate_into_absent.
    + rewrite lookup_insert_eq. f_equal. lia.
    + intros [j' Hj']%list_elem_of_lookup_1.
      apply (Hlast (S j')); [lia | done].
  - rewrite (IH (i + 1) _ j Hj).
    + f_equal. lia.
    + intros j' Hlt. apply (Hlast (S j')). lia.
Qed.

Lemma last_occurrence (words : list string) (w : string) :
  w ∈ words →
  ∃ j : nat, words !! j = Some w
             ∧ ∀ j' : nat, (j < j')%nat → words !! j' ≠ Some w.
Proof.
  induction words as [|w0 rest IH]; intros Hw; [by apply elem_of_nil in Hw|].
  destruct (decide (w ∈ rest)) as [Hin|Hout].
  - destruct (IH Hin) as (j & Hj & Hlast). exists (S j).
    split; [done|]. intros [|j'] Hlt; [lia|]. simpl. apply Hlast. lia.
  - apply elem_of_cons in Hw as [->|]; [|done]. exists 0%nat.
    split; [done|]. intros [|j'] Hlt; [lia|]. simpl. intros Hj'.
    apply Hout. by eapply list_elem_of_lookup_2.
Qed.

Lemma word_index_of_Some_inv (words : list string) (w : string) (v : Z) :
  word_index_of words !! w = Some v →
  ∃ j : nat, v = Z.of_nat j ∧ words !! j = Some w
             ∧ ∀ j' : nat, (j < j')%nat → words !! j' ≠ Some w.
Proof.
  intros Hv. unfold word_index_of in Hv.
  destruct (decide (w ∈ words)) as [Hin|Hout].
  - destruct (last_occurrence words w Hin) as (j & Hj & Hlast).
    rewrite (enumerate_into_last 0 words ∅ w j Hj Hlast) in Hv.
    exists j. split; [|done]. simplify_eq. lia.
  - rewrite enumerate_into_absent in Hv by done.
    by rewrite lookup_empty in Hv.
Qed.

(** X6. The vocabulary built from the word list has exactly the words of
    the list as keys, and maps each word to the position of its last
    occurrence; when no word is repeated, looking up the word at position
    [j] gives [j]. *)
Theorem word_index_of_lookup (words : list string) (w : string) :
  (word_index_of words !! w = None ↔ w ∉ words)
  ∧ (∀ v : Z, word_index_of words !! w = Some v ↔
       ∃ j : nat, v = Z.of_nat j ∧ words !! j = Some w
                  ∧ ∀ j' : nat, (j < j')%nat → words !! j' ≠ Some w)
  ∧ (NoDup words → ∀ j : nat, words !! j = Some w →
       word_index_of words !! w = Some (Z.of_nat j)).
Proof.
  assert (∀ j : nat, words !! j = Some w →
            (∀ j' : nat, (j < j')%nat → words !! j' ≠ Some w) →
            word_index_of words !! w = Some (Z.of_nat j)) as Hlast.
  { intros j Hj Hl. unfold word_index_of.
    by rewrite (enumerate_into_last 0 words ∅ w j Hj Hl). }
  split_and!.
  - split.
    + intros Hnone Hin.
      destruct (last_occurrence words w Hin) as (j & Hj & Hl).
      rewrite (Hlast j Hj Hl) in Hnone. done.
    + intros Hout. unfold word_index_of.
      by rewrite enumerate_into_absent, lookup_empty.
  - intros v. split; [apply word_index_of_Some_inv|].
    intros (j & -> & Hj & Hl). by apply Hlast.
  - intros Hnd j Hj. apply Hlast; [done|].
    intros j' Hlt Hj'. pose proof (NoDup_lookup _ _ _ _ Hnd Hj Hj'). lia.
Qed.

Lemma word_index_of_lookup_witness :
  word_index_of ["the"; "cat"; "sat"] !! "sat" = Some (Z.of_nat 2).
Proof.
  apply (word_index_of_lookup ["the"; "cat"; "sat"] "sat").
  - apply (bool_decide_unpack _). vm_compute. exact I.
  - reflexivity.
Defined.

(** X7. With a non-empty word list, every element of a sentence encoded with
    the vocabulary built from it is a position of the word list: the rows of
    the embedding table that the encoding refers to all exist. *)
Theorem sent2indices_within_vocabulary (words sent : list string)
    (max_l pad : Z) :
  words ≠ [] →
  Forall (λ e, 0 ≤ e < len words)
         (sent2indices sent (word_index_of words) max_l pad).
Proof.
  intros Hwords.
  assert (0 < len words) as Hpos.
  { unfold len. destruct words; [done | simpl; lia]. }
  unfold sent2indices. rewrite sent_loop_zeros.
  assert (Forall (λ e, 0 ≤ e < len words) (zeros pad)
          ∧ ∀ r, Forall (λ e, 0 ≤ e < len words) (zeros r)) as [Hz Hzr].
  { unfold zeros. split; [|intros r]; apply Forall_replicate; lia. }
  rewrite !Forall_app. split_and!; [done| |done].
  apply Forall_take, Forall_forall. intros e He.
  unfold known_indices in He.
  apply list_elem_of_omap in He as (w & _ & Hw).
  apply word_index_of_Some_inv in Hw as (j & -> & Hj & _).
  apply lookup_lt_Some in Hj. unfold len. lia.
Qed.

Lemma sent2indices_within_vocabulary_witness :
  Forall (λ e, 0 ≤ e < len ["the"; "cat"; "sat"])
         (sent2indices ["cat"; "dog"; "sat"]
                       (word_index_of ["the"; "cat"; "sat"]) 4 1).
Proof.
  apply (sent2indices_within_vocabulary ["the"; "cat"; "sat"]
           ["cat"; "dog"; "sat"] 4 1).
  discriminate.
Defined.

(** X8. The first word of the word list, when it does not occur again, gets
    the index 0, which is also the padding value: with a non-negative pad, a
    sentence made of that word and of words outside the list is encoded
    exactly like the empty sentence. *)
Theorem sent2indices_first_word_is_padding (w : string)
    (rest sent : list string) (max_l pad : Z) :
  0 ≤ pad → w ∉ rest →
  (∀ word, word ∈ sent → word = w ∨ word ∉ w :: rest) →
  word_index_of (w :: rest) !! w = Some 0
  ∧ sent2indices sent (word_index_of (w :: rest)) max_l pad
    = sent2indices [] (word_index_of (w :: rest)) max_l pad.
Proof.
  intros Hp Hfirst Hsent.
  assert (word_index_of (w :: rest) !! w = Some 0) as Hw.
  { unfold word_index_of.
    rewrite (enumerate_into_last 0 (w :: rest) ∅ w 0); [done..|].
    intros [|j'] Hlt Hj'; [lia|]. simpl in Hj'.
    apply Hfirst. by eapply list_elem_of_lookup_2. }
  split; [done|].
  assert (∀ l : list Z, Forall (λ z, z = 0) l → l = zeros (len l)) as Hzeros.
  { intros l Hl. unfold zeros, len. rewrite Nat2Z.id.
    induction Hl as [|z l -> _ IH]; simpl; congruence. }
  assert (Forall (λ z, z = 0)
            (sent2indices sent (word_index_of (w :: rest)) max_l pad)) as Hall.
  { unfold sent2indices. rewrite sent_loop_zeros.
    rewrite !Forall_app. split_and!; [apply Forall_zeros| |apply Forall_zeros].
    apply Forall_take, Forall_forall. intros e He.
    unfold known_indices in He.
    apply list_elem_of_omap in He as (word & Hin & Hword).
    destruct (Hsent word Hin) as [->|Hout]; [congruence|].
    unfold word_index_of in Hword.
    rewrite enumerate_into_absent in Hword by done.
    by rewrite lookup_empty in Hword. }
  assert (Forall (λ z, z = 0)
            (sent2indices [] (word_index_of (w :: rest)) max_l pad)) as Hnil.
  { unfold sent2indices. simpl. rewrite Forall_app.
    split; apply Forall_zeros. }
  rewrite (Hzeros _ Hall), (Hzeros _ Hnil).
  by rewrite !len_sent2indices.
Qed.

Lemma sent2indices_first_word_is_padding_witness :
  word_index_of ("the" :: ["cat"; "sat"]) !! "the" = Some 0
  ∧ sent2indices ["the"; "dog"; "the"]
                 (word_index_of ("the" :: ["cat"; "sat"])) 4 1
    = sent2indices [] (word_index_of ("the" :: ["cat"; "sat"])) 4 1.
Proof.
  apply (sent2indices_first_word_is_padding "the" ["cat"; "sat"]
           ["the"; "dog"; "the"] 4 1).
  - lia.
  - apply (bool_decide_unpack _). vm_compute. exact I.
  - intros word Hword.
    apply list_elem_of_In in Hword. destruct Hword as [<-|[<-|[<-|[]]]].
    + by left.
    + right. apply (bool_decide_unpack _). vm_compute. exact I.
    + by left.
Defined.

(** ** Fold splitter *)

Lemma slice_to_inside {A} (l : list A) (stop : Z) :
  0 ≤ stop → stop ≤ len l → slice_to l stop = take (Z.to_nat stop) l.
Proof.
  intros H0 Hle. unfold slice_to. rewrite slice_inside by lia.
  rewrite Z.sub_0_r. done.
Qed.

Lemma slice_from_inside {A} (l : list A) (start : Z) :
  0 ≤ start → start ≤ len l → slice_from l start = drop (Z.to_nat start) l.
Proof.
  intros H0 Hle. unfold slice_from. rewrite slice_inside by lia.
  apply take_ge. rewrite length_drop. unfold len. lia.
Qed.

(** Every pair of the loop cuts the index array in three: what comes before
    the test slice, the test slice, what comes after; the train component is
    the first part followed by the last. *)
Lemma kfold_loop_parts (indices sizes : list Z) (current : Z) :
  Forall (λ s, 0 ≤ s) sizes → 0 ≤ current →
  current + Zsum sizes ≤ len indices →
  Forall (λ item, ∃ before test after,
            item = Split (before ++ after) test
            ∧ indices = before ++ test ++ after)
         (kfold_loop indices sizes current).
Proof.
  intros Hpos. revert current.
  induction Hpos as [|s sizes Hs Hpos IH]; intros current Hc Hlen.
  { constructor. }
  pose proof (Zsum_nonneg sizes Hpos) as Hsum.
  change (Zsum (s :: sizes)) with (s + Zsum sizes) in *.
  cbn [kfold_loop]. constructor; [|apply IH; lia].
  rewrite slice_to_inside, slice_from_inside, slice_inside by lia.
  eexists _, _, _. split; [done|].
  replace (current + s - current) with s by lia.
  replace (Z.to_nat (current + s)) with (Z.to_nat current + Z.to_nat s)%nat
    by lia.
  rewrite <- drop_drop. by rewrite !take_drop.
Qed.

(** X9. For [n >= 0] and [folds >= 2], with a shuffle that permutes its
    argument, the train component of every pair that [kfold] yields is the
    shuffled index array with the test slice cut out, in the order of the
    shuffle: train and test are disjoint, together they are the indices
    [0 .. n-1], and their sizes add up to [n]. *)
Theorem kfold_train_is_complement {rng : Type}
    (shuffle : list Z → rng → list Z * rng) (n folds : Z) (g : rng) :
  (∀ l g, (shuffle l g).1 ≡ₚ l) →
  0 ≤ n → 2 ≤ folds →
  ∀ train test : list Z,
    Split train test ∈ (kfold shuffle n folds g).1 →
    (∃ before after,
       train = before ++ after
       ∧ (shuffle (arange n) g).1 = before ++ test ++ after)
    ∧ train ++ test ≡ₚ arange n
    ∧ (∀ z, z ∈ train → z ∉ test)
    ∧ (∀ z, 0 ≤ z < n ↔ z ∈ train ∨ z ∈ test)
    ∧ len train + len test = n.
Proof.
  intros Hshuffle Hn Hfolds train test Hin. unfold kfold in Hin.
  destruct (Z.ltb_spec folds 2) as [|_]; [lia|].
  specialize (Hshuffle (arange n) g).
  destruct (shuffle (arange n) g) as [indices g']. simpl in *.
  assert (len indices = n) as Hlen.
  { unfold len. rewrite (Permutation_length Hshuffle).
    unfold arange. rewrite length_seqZ. lia. }
  assert (Forall (λ item, ∃ before test after,
                    item = Split (before ++ after) test
                    ∧ indices = before ++ test ++ after)
                 (kfold_loop indices (fold_sizes n folds) 0)) as Hparts.
  { apply kfold_loop_parts.
    - apply fold_sizes_nonneg; lia.
    - lia.
    - rewrite fold_sizes_sum; lia. }
  rewrite Forall_forall in Hparts.
  destruct (Hparts _ Hin) as (before & test' & after & Heq & Hcut).
  injection Heq as -> ->. rewrite Hcut in Hshuffle.
  assert ((before ++ after) ++ test' ≡ₚ arange n) as Hperm.
  { rewrite <- Hshuffle, <- app_assoc. f_equiv. apply Permutation_app_comm. }
  assert (NoDup ((before ++ after) ++ test')) as Hnd.
  { rewrite Hperm. apply NoDup_seqZ. }
  split_and!.
  - by exists before, after.
  - done.
  - by apply NoDup_app in Hnd as (_ & Hdisj & _).
  - intros z. rewrite <- elem_of_app, Hperm. unfold arange.
    rewrite elem_of_seqZ. lia.
  - rewrite <- len_app. unfold len. rewrite (Permutation_length Hperm).
    unfold arange. rewrite length_seqZ. lia.
Qed.

Lemma kfold_train_is_complement_witness :
  (∃ before after,
     [4; 3; 0] = before ++ after
     ∧ (reverse_shuffle (arange 5) tt).1 = before ++ [2; 1] ++ after)
  ∧ [4; 3; 0] ++ [2; 1] ≡ₚ arange 5
  ∧ (∀ z, z ∈ [4; 3; 0] → z ∉ [2; 1])
  ∧ (∀ z, 0 ≤ z < 5 ↔ z ∈ [4; 3; 0] ∨ z ∈ [2; 1])
  ∧ len [4; 3; 0] + len [2; 1] = 5.
Proof.
  apply (kfold_train_is_complement reverse_shuffle 5 3 tt).
  - intros l g. simpl. apply reverse_Permutation.
  - lia.
  - lia.
  - apply (list_elem_of_lookup_2 _ 1%nat). reflexivity.
Defined.

(** ** Training branch *)

(** X10. Without cross-validation ([-cv] below 2) the loop asks for one fold
    and gets the bare index array: unpacking it raises unless there are
    exactly two sentences, so nothing is trained and nothing is reported;
    with exactly two sentences the network is trained once, on sentence 0
    alone, and the report is the accuracy of that run. *)
Theorem cross_validation_without_folds {rng : Type} (seed : Z → rng)
    (shuffle : list Z → rng → list Z * rng)
    (fit : fold_index → rng → option (Q * rng)) (n args_cv : Z) :
  args_cv < 2 →
  (n ≠ 2 → cross_validation seed shuffle fit n args_cv = None)
  ∧ (n = 2 →
     cross_validation seed shuffle fit n args_cv
       = '(perf, _) ← fit (Scalar 0) (seed 3435); Some ([perf], mean [perf]))
  ∧ ∀ perf : Q, (mean [perf] == perf)%Q.
Proof.
  intros Hcv. unfold cross_validation, kfold.
  destruct (Z.ltb_spec args_cv 2) as [_|]; [|lia]. simpl.
  split_and!.
  - intros Hn.
    pose proof (length_seqZ 0 n) as Hlen. unfold arange.
    destruct (seqZ 0 n) as [|a [|b [|c l]]]; simpl in *; try done. lia.
  - intros ->. change (arange 2) with [0; 1]. simpl.
    destruct (fit (Scalar 0) (seed 3435)) as [[perf g']|]; done.
  - intros perf. unfold mean, Qsum, len. cbn [fold_left length].
    change (inject_Z (Z.of_nat 1)) with 1%Q. field.
Qed.

Lemma cross_validation_without_folds_witness :
  cross_validation (λ _, tt) reverse_shuffle
                   (train_on_fold half_net_train five_rows) 5 0 = None
  ∧ cross_validation (λ _, tt) reverse_shuffle
                     (train_on_fold half_net_train
                                    [[0; 1; 0; 0]; [0; 2; 0; 1]]) 2 1
    = Some ([(1 # 2)%Q], mean [(1 # 2)%Q]).
Proof.
  split.
  - apply (cross_validation_without_folds (λ _, tt) reverse_shuffle
             (train_on_fold half_net_train five_rows) 5 0); lia.
  - apply (cross_validation_without_folds (λ _, tt) reverse_shuffle
             (train_on_fold half_net_train [[0; 1; 0; 0]; [0; 2; 0; 1]])
             2 1); lia.
Defined.

(** ** Tab-separated records *)

Lemma split_on_nonempty (sep : ascii) (s : string) : split_on sep s ≠ [].
Proof.
  destruct s as [|c r]; simpl; [done|].
  destruct (Ascii.eqb c sep); [done|]. by destruct (split_on sep r).
Qed.

Lemma len_split_on_pos (sep : ascii) (s : string) : 1 ≤ len (split_on sep s).
Proof.
  pose proof (split_on_nonempty sep s). unfold len.
  destruct (split_on sep s); [done | simpl; lia].
Qed.

(** Joining the fields of a string gives the string back. *)
Lemma join_split_on (sep : ascii) (s : string) :
  join (String sep EmptyString) (split_on sep s) = s.
Proof.
  induction s as [|c r IH]; [done|]. simpl.
  pose proof (split_on_nonempty sep r) as Hne.
  destruct (split_on sep r) as [|field fields]; [done|].
  destruct (Ascii.eqb_spec c sep) as [->|Hc].
  - rewrite <- IH. done.
  - rewrite <- IH. by destruct fields.
Qed.

Lemma split_on_no_sep (sep : ascii) (s : string) :
  sep ∉ list_ascii_of_string s → split_on sep s = [s].
Proof.
  induction s as [|c r IH]; [done|]. simpl.
  intros [Hc Hr]%not_elem_of_cons.
  destruct (Ascii.eqb_spec c sep) as [->|_]; [done|]. by rewrite IH.
Qed.

Lemma split_on_app_sep (sep : ascii) (s t : string) :
  sep ∉ list_ascii_of_string s →
  split_on sep (s +:+ String sep t) = s :: split_on sep t.
Proof.
  induction s as [|c r IH].
  - intros _. change (split_on sep (String sep t) = "" :: split_on sep t).
    simpl. by rewrite Ascii.eqb_refl.
  - simpl. intros [Hc Hr]%not_elem_of_cons.
    change (split_on sep (String c (r +:+ String sep t))
            = String c r :: split_on sep t).
    simpl. destruct (Ascii.eqb_spec c sep) as [->|_]; [done|]. by rewrite IH.
Qed.

(** Splitting the join of separator-free fields gives the fields back. *)
Lemma split_on_join (sep : ascii) (fields : list string) :
  fields ≠ [] →
  Forall (λ field, sep ∉ list_ascii_of_string field) fields →
  split_on sep (join (String sep EmptyString) fields) = fields.
Proof.
  intros Hne Hfree. induction Hfree as [|field fields Hfield Hfree IH]; [done|].
  destruct fields as [|field' fields].
  - simpl. by apply split_on_no_sep.
  - change (split_on sep
              (field +:+ String sep
                 (join (String sep EmptyString) (field' :: fields)))
            = field :: field' :: fields).
    rewrite split_on_app_sep by done. f_equal. by apply IH.
Qed.

(** The fields of a string hold no separator. *)
Lemma split_on_fields_free (sep : ascii) (s : string) :
  Forall (λ field, sep ∉ list_ascii_of_string field) (split_on sep s).
Proof.
  induction s as [|c r IH]; simpl.
  - repeat constructor. apply not_elem_of_nil.
  - destruct (Ascii.eqb_spec c sep) as [->|Hc].
    + constructor; [apply not_elem_of_nil | done].
    + destruct (split_on sep r) as [|field fields].
      * repeat constructor. simpl. apply not_elem_of_cons.
        split; [congruence | apply not_elem_of_nil].
      * apply Forall_cons in IH as [Hfield Hfields].
        constructor; [|done]. simpl. apply not_elem_of_cons.
        split; [congruence | done].
Qed.

(** X11. Splitting a record at the tabs and joining the fields with tabs are
    inverse to each other: the join of the fields of any string is the
    string, and the fields of the join of tab-free strings are those
    strings. *)
Theorem tab_fields_round_trip (s : string) (fields : list string) :
  join (String tab EmptyString) (split_on tab s) = s
  ∧ (fields ≠ [] →
     Forall (λ field, tab ∉ list_ascii_of_string field) fields →
     split_on tab (join (String tab EmptyString) fields) = fields).
Proof. split; [apply join_split_on | apply split_on_join]. Qed.

Lemma tab_fields_round_trip_witness :
  join (String tab EmptyString) (split_on tab (record ["1"; "neg"; "a b"]))
    = record ["1"; "neg"; "a b"]
  ∧ split_on tab (join (String tab EmptyString) ["1"; ""; "a b"])
    = ["1"; ""; "a b"].
Proof.
  destruct (tab_fields_round_trip (record ["1"; "neg"; "a b"]) ["1"; ""; "a b"])
    as [Hjoin Hsplit].
  split; [exact Hjoin|]. apply Hsplit; [discriminate|].
  repeat constructor; apply (bool_decide_unpack _); vm_compute; exact I.
Defined.

(** ** Prediction branch *)

Lemma norm_index_is_Some {A} (l : list A) (i : Z) :
  is_Some (norm_index l i) ↔ - len l ≤ i < len l.
Proof.
  unfold norm_index.
  destruct (Z.leb_spec 0 i), (Z.ltb_spec i (len l)),
    (Z.leb_spec (- len l) i), (Z.ltb_spec i 0); simpl;
    (split; [intros [? ?]; simplify_eq; lia | intros; try lia; by eexists]).
Qed.

Lemma norm_index_lt {A} (l : list A) (i : Z) (k : nat) :
  norm_index l i = Some k → (k < length l)%nat.
Proof.
  unfold norm_index, len.
  destruct (Z.leb_spec 0 i), (Z.ltb_spec i (Z.of_nat (length l))),
    (Z.leb_spec (- Z.of_nat (length l)) i), (Z.ltb_spec i 0); simpl;
    intros; simplify_eq; lia.
Qed.

Lemma getitem_is_Some {A} (l : list A) (i : Z) :
  is_Some (getitem l i) ↔ - len l ≤ i < len l.
Proof.
  rewrite <- norm_index_is_Some. unfold getitem. split.
  - intros [x Hx]. destruct (norm_index l i); [by eexists | done].
  - intros [k Hk]. rewrite Hk. simpl.
    apply lookup_lt_is_Some. by eapply norm_index_lt.
Qed.

(** X12. A relabelled record differs from its line in the label field only:
    provided the label holds no tab, the fields of the printed record are
    the fields of the line with the field at the tag position replaced by
    the label, so the number of fields and every other field are kept. *)
Theorem relabel_changes_only_tag_field (labels : list string) (tagField : Z)
    (line : string) (y : Z) (out : string) :
  relabel labels tagField line y = Some out →
  ∃ (k : nat) (label : string),
    getitem labels y = Some label
    ∧ norm_index (split_on tab line) tagField = Some k
    ∧ (tab ∉ list_ascii_of_string label →
       split_on tab out = <[k := label]> (split_on tab line)
       ∧ split_on tab out !! k = Some label
       ∧ length (split_on tab out) = length (split_on tab line)
       ∧ ∀ j : nat, j ≠ k →
           split_on tab out !! j = split_on tab line !! j).
Proof.
  unfold relabel, setitem. intros Hout.
  destruct (getitem labels y) as [label|] eqn:Hlabel; [|done]. simpl in Hout.
  destruct (norm_index (split_on tab line) tagField) as [k|] eqn:Hk; [|done].
  simpl in Hout. simplify_eq. exists k, label. split_and!; [done..|].
  intros Hfree. pose proof (norm_index_lt _ _ _ Hk) as Hlt.
  assert (split_on tab
            (join (String tab EmptyString) (<[k := label]> (split_on tab line)))
          = <[k := label]> (split_on tab line)) as ->.
  { apply split_on_join.
    - intros Hnil. apply (f_equal length) in Hnil.
      rewrite length_insert in Hnil. simpl in Hnil. lia.
    - apply Forall_insert; [apply split_on_fields_free | done]. }
  split_and!.
  - done.
  - by apply list_lookup_insert_eq.
  - apply length_insert.
  - intros j Hj. by apply list_lookup_insert_ne.
Qed.

Lemma relabel_changes_only_tag_field_witness :
  ∃ (k : nat) (label : string),
    getitem ["neg"; "pos"] 1 = Some label
    ∧ norm_index (split_on tab (record ["1"; "neg"; "great movie"])) 1 = Some k
    ∧ (tab ∉ list_ascii_of_string label →
       split_on tab (record ["1"; "pos"; "great movie"])
         = <[k := label]> (split_on tab (record ["1"; "neg"; "great movie"]))
       ∧ split_on tab (record ["1"; "pos"; "great movie"]) !! k = Some label
       ∧ length (split_on tab (record ["1"; "pos"; "great movie"]))
         = length (split_on tab (record ["1"; "neg"; "great movie"]))
       ∧ ∀ j : nat, j ≠ k →
           split_on tab (record ["1"; "pos"; "great movie"]) !! j
             = split_on tab (record ["1"; "neg"; "great movie"]) !! j).
Proof.
  apply (relabel_changes_only_tag_field ["neg"; "pos"] 1
           (record ["1"; "neg"; "great movie"]) 1
           (record ["1"; "pos"; "great movie"])).
  reflexivity.
Defined.

Lemma relabel_is_Some (labels : list string) (tagField : Z)
    (line : string) (y : Z) :
  is_Some (relabel labels tagField line y) ↔
  (- len labels ≤ y < len labels)
  ∧ (- len (split_on tab line) ≤ tagField < len (split_on tab line)).
Proof.
  rewrite <- getitem_is_Some, <- norm_index_is_Some.
  unfold relabel, setitem. split.
  - intros [out Hout].
    destruct (getitem labels y) as [label|]; [|done]. simpl in Hout.
    destruct (norm_index (split_on tab line) tagField) as [k|]; [|done].
    split; by eexists.
  - intros [[label ->] [k ->]]. simpl. by eexists.
Qed.

(** X13. Relabelling a line succeeds exactly when the predicted class is an
    index of the label table and the tag position is an index of the fields
    of the line, negative indices counting from the end; a line always has
    at least one field. *)
Theorem relabel_succeeds_iff (labels : list string) (tagField : Z)
    (line : string) (y : Z) :
  (is_Some (relabel labels tagField line y) ↔
     (- len labels ≤ y < len labels)
     ∧ (- len (split_on tab line) ≤ tagField < len (split_on tab line)))
  ∧ 1 ≤ len (split_on tab line).
Proof. split; [apply relabel_is_Some | apply len_split_on_pos]. Qed.

(** ** Corpus reader *)

Lemma read_line_is_Some (word_index : gmap string Z) (max_l pad : Z)
    (lower : bool) (textField : Z) (line : string) :
  is_Some (read_line word_index max_l pad lower textField line) ↔
  - len (split_on tab (strip line)) ≤ textField
    < len (split_on tab (strip line)).
Proof.
  rewrite <- getitem_is_Some. unfold read_line.
  destruct (getitem (split_on tab (strip line)) textField); simpl.
  - split; by eexists.
  - split; by intros [? ?].
Qed.

(** X14. With a non-negative pad, the array that [read_corpus] returns is
    rectangular: it has one row for each line of the file and every row has
    [max(pad, max_l + 2 * pad)] elements, whatever the lines hold. *)
Theorem read_corpus_rectangular (lines : list string)
    (word_index : gmap string Z) (max_l pad : Z) (lower : bool)
    (textField : Z) (rows : list (list Z)) :
  0 ≤ pad →
  read_corpus lines word_index max_l pad lower textField = Some rows →
  length rows = length lines
  ∧ Forall (λ row, len row = Z.max pad (max_l + 2 * pad)) rows.
Proof.
  intros Hp Hrows.
  pose proof (read_corpus_rows _ _ _ _ _ _ _ Hrows) as Hall.
  split; [symmetry; by eapply Forall2_length|].
  clear Hrows.
  induction Hall as [|line row lines rows (text & _ & ->) _ IH];
    [constructor|].
  constructor; [by apply len_sent2indices | done].
Qed.

Lemma read_corpus_rectangular_witness :
  length [[0; 0; 0; 0; 0; 0; 0]] = length [record ["id"; "pos"; "hello world"]]
  ∧ Forall (λ row, len row = Z.max 1 (5 + 2 * 1)) [[0; 0; 0; 0; 0; 0; 0]].
Proof.
  apply (read_corpus_rectangular [record ["id"; "pos"; "hello world"]]
           {["hello" := 1; "world" := 2]} 5 1 true 2).
  - lia.
  - reflexivity.
Defined.

(** The loop of [read_corpus] ends normally exactly when the text position
    is an index of the fields of every stripped line. *)
Lemma read_corpus_is_Some (lines : list string)
    (word_index : gmap string Z) (max_l pad : Z) (lower : bool)
    (textField : Z) :
  is_Some (read_corpus lines word_index max_l pad lower textField) ↔
  Forall (λ line, - len (split_on tab (strip line)) ≤ textField
                  < len (split_on tab (strip line))) lines.
Proof.
  unfold read_corpus. rewrite mapM_is_Some.
  apply Forall_proper; [|done]. intros line. apply read_line_is_Some.
Qed.

(** An element of an encoded sentence is 0 or an index of the vocabulary. *)
Lemma sent2indices_elements (sent : list string) (word_index : gmap string Z)
    (max_l pad : Z) (e : Z) :
  e ∈ sent2indices sent word_index max_l pad →
  e = 0 ∨ ∃ w, word_index !! w = Some e.
Proof.
  unfold sent2indices. rewrite sent_loop_zeros, !elem_of_app.
  intros [[He|He]|He].
  - left. by apply elem_of_replicate in He as [-> _].
  - right. apply elem_of_take in He as (i & Hi & _).
    apply list_elem_of_lookup_2 in Hi. unfold known_indices in Hi.
    apply list_elem_of_omap in Hi as (w & _ & Hw). eauto.
  - left. by apply elem_of_replicate in He as [-> _].
Qed.

Lemma mapM_id {A} (f : A → option A) (l : list A) :
  Forall (λ x, f x = Some x) l → mapM f l = Some l.
Proof.
  intros Hl. apply mapM_Some. induction Hl; by constructor.
Qed.

Lemma rectangular_same_length (rows : list (list Z)) (n : nat) :
  Forall (λ row, length row = n) rows → rectangular rows = true.
Proof.
  destruct rows as [|row rest]; [done|]. simpl.
  intros [Hrow Hrest]%Forall_cons.
  induction Hrest as [|r rest Hr _ IH]; [done|]. simpl.
  rewrite IH, andb_true_r. apply Nat.eqb_eq. congruence.
Qed.

(** X15. With a non-negative pad and a vocabulary whose indices fit int32,
    the conversion to an int32 array at the end of [read_corpus] neither
    raises nor changes a value, and [read_corpus] returns exactly when the
    text position is an index of the fields of every line, taken after the
    surrounding whitespace of the line is stripped. *)
Theorem read_corpus_int32_succeeds_iff (overflow : Z → option Z)
    (lines : list string) (word_index : gmap string Z) (max_l pad : Z)
    (lower : bool) (textField : Z) :
  0 ≤ pad →
  (∀ w v, word_index !! w = Some v → - 2 ^ 31 ≤ v < 2 ^ 31) →
  read_corpus_int32 overflow lines word_index max_l pad lower textField
    = read_corpus lines word_index max_l pad lower textField
  ∧ (is_Some (read_corpus_int32 overflow lines word_index max_l pad lower
                                textField) ↔
     Forall (λ line, - len (split_on tab (strip line)) ≤ textField
                     < len (split_on tab (strip line))) lines).
Proof.
  intros Hp Hrange.
  assert (read_corpus_int32 overflow lines word_index max_l pad lower textField
          = read_corpus lines word_index max_l pad lower textField) as Hsame.
  { unfold read_corpus_int32.
    destruct (read_corpus lines word_index max_l pad lower textField)
      as [rows|] eqn:Hrows; [|done]. simpl.
    pose proof (read_corpus_rows _ _ _ _ _ _ _ Hrows) as Hall. clear Hrows.
    assert (Forall (λ row, length row = Z.to_nat (Z.max pad (max_l + 2 * pad))
                           ∧ Forall (λ e, - 2 ^ 31 ≤ e < 2 ^ 31) row) rows)
      as Hgood.
    { induction Hall as [|line row lines rows (text & _ & ->) _ IH];
        constructor; [|done]. split.
      - pose proof (len_sent2indices
                      (chars (if lower then str_lower text else text))
                      word_index max_l pad Hp) as Hlen.
        unfold len in Hlen. lia.
      - apply Forall_forall. intros e He.
        apply sent2indices_elements in He as [->|[w Hw]]; [lia | eauto]. }
    unfold np_array_int32.
    rewrite (rectangular_same_length rows
               (Z.to_nat (Z.max pad (max_l + 2 * pad)))).
    - apply mapM_id. eapply Forall_impl; [exact Hgood|].
      intros row [_ Hrow]. apply mapM_id.
      eapply Forall_impl; [exact Hrow|]. intros e [Hlo Hhi].
      unfold int32_cast. apply Z.leb_le in Hlo. apply Z.ltb_lt in Hhi.
      by rewrite Hlo, Hhi.
    - eapply Forall_impl; [exact Hgood|]. by intros row [? _]. }
  split; [exact Hsame|]. rewrite Hsame. apply read_corpus_is_Some.
Qed.

Lemma read_corpus_int32_succeeds_iff_witness :
  read_corpus_int32 (λ _, None) [record ["id"; "pos"; "a b"]]
                    {["a" := 1; "b" := 2]} 5 1 true 2
    = read_corpus [record ["id"; "pos"; "a b"]] {["a" := 1; "b" := 2]}
                  5 1 true 2
  ∧ (is_Some (read_corpus_int32 (λ _, None) [record ["id"; "pos"; "a b"]]
                                {["a" := 1; "b" := 2]} 5 1 true 2) ↔
     Forall (λ line, - len (split_on tab (strip line)) ≤ 2
                     < len (split_on tab (strip line)))
            [record ["id"; "pos"; "a b"]]).
Proof.
  apply (read_corpus_int32_succeeds_iff (λ _, None)
           [record ["id"; "pos"; "a b"]] {["a" := 1; "b" := 2]} 5 1 true 2).
  - lia.
  - intros w v Hw.
    apply lookup_insert_Some in Hw as [[_ <-]|[_ Hw]]; [lia|].
    apply lookup_singleton_Some in Hw as [_ <-]. lia.
Defined.

(** With a negative pad the rows can have unequal lengths, and the
    conversion to an array raises where the loop had ended normally. *)
Example read_corpus_int32_ragged (overflow : Z → option Z) :
  read_corpus [record ["id"; "pos"; "abc"]; record ["id"; "pos"; "a"]]
              {["a" := 1; "b" := 2; "c" := 3]} 3 (-1) false 2
    = Some [[1; 2; 3]; [1]]
  ∧ read_corpus_int32 overflow
      [record ["id"; "pos"; "abc"]; record ["id"; "pos"; "a"]]
      {["a" := 1; "b" := 2; "c" := 3]} 3 (-1) false 2
    = None.
Proof. split; reflexivity. Qed.

(** ** Prediction branch, end to end *)



(** X17. The input is read and encoded in full before the first record is
    printed: when one line of the input has too few fields for the text
    position, the prediction branch raises without printing anything,
    whatever the artifact and the network. *)
Theorem predict_branch_raises_before_printing {model : Type}
    (net : codec model) (pickle : codec metadata)
    (predict : model → list (list Z) → list Z) (mfile : list byte)
    (input : list string) (lower : bool) (textField tagField : Z) :
  Exists (λ line, ¬ (- len (split_on tab (strip line)) ≤ textField
                     < len (split_on tab (strip line)))) input →
  predict_branch net pickle predict mfile input lower textField tagField
    = None.
Proof.
  intros Hbad. unfold predict_branch.
  destruct (load_artifact net pickle mfile)
    as [[cnn [[[word_index max_l] pad] labels]]|]; [|done]. simpl.
  assert (read_corpus input word_index max_l pad lower textField = None)
    as ->; [|done].
  unfold read_corpus. apply mapM_None.
  eapply Exists_impl; [exact Hbad|]. intros line Hline. simpl in Hline.
  destruct (read_line word_index max_l pad lower textField line) eqn:Hrow;
    [|done].
  destruct Hline. apply (read_line_is_Some word_index max_l pad lower).
  by eexists.
Qed.

Lemma predict_branch_raises_before_printing_witness :
  predict_branch (bits_codec (list Z)) (bits_codec metadata) one_prediction
    sample_artifact
    [record ["1"; "neg"; "great movie"]; record ["2"; "neg"]] false 2 1
  = None.
Proof.
  apply predict_branch_raises_before_printing.
  apply Exists_cons_tl, Exists_cons_hd. vm_compute. intros [_ H]. done.
Defined.



(** ** What the loops leave behind and what they ignore *)

Lemma relabel_loop_stops (labels : list string) (tagField : Z)
    (pairs : list (string * Z)) (i : nat) (line : string) (y : Z) :
  pairs !! i = Some (line, y) →
  relabel labels tagField line y = None →
  (∀ (j : nat) l z, (j < i)%nat → pairs !! j = Some (l, z) →
     is_Some (relabel labels tagField l z)) →
  ∃ printed : list string,
    relabel_loop labels tagField pairs = (printed, Raised)
    ∧ length printed = i
    ∧ ∀ (j : nat) l z, (j < i)%nat → pairs !! j = Some (l, z) →
        printed !! j = relabel labels tagField l z.
Proof.
  revert pairs. induction i as [|i IH]; intros pairs Hi Hfail Hbefore.
  - destruct pairs as [|[l z] pairs]; simplify_eq/=. rewrite Hfail.
    exists []. split_and!; [done..|]. intros; lia.
  - destruct pairs as [|[l z] pairs]; simplify_eq/=.
    destruct (Hbefore 0%nat l z ltac:(lia) eq_refl) as [rec Hrec].
    rewrite Hrec.
    destruct (IH pairs Hi Hfail) as (printed & -> & Hlen & Hpos).
    { intros j l' z' Hj Hl'. apply (Hbefore (S j)); [lia | done]. }
    exists (rec :: printed). split_and!; [done | simpl; lia |].
    intros [|j] l' z' Hj Hl'; simplify_eq/=; [done|].
    apply Hpos; [lia | done].
Qed.

(** X20. A failure of the relabelling loop leaves partial output: when the
    relabelling of the pair at position [i] raises and all earlier ones
    succeed, exactly the first [i] records have been printed, in order,
    before the loop raises. *)
Theorem relabel_all_partial_output (labels : list string) (tagField : Z)
    (lines : list string) (results : list Z) (i : nat) (line : string)
    (y : Z) :
  lines !! i = Some line → results !! i = Some y →
  relabel labels tagField line y = None →
  (∀ (j : nat) l z, (j < i)%nat → lines !! j = Some l →
     results !! j = Some z → is_Some (relabel labels tagField l z)) →
  ∃ printed : list string,
    relabel_all labels tagField lines results = (printed, Raised)
    ∧ length printed = i
    ∧ ∀ (j : nat) l z, (j < i)%nat → lines !! j = Some l →
        results !! j = Some z → printed !! j = relabel labels tagField l z.
Proof.
  intros Hline Hy Hfail Hbefore. unfold relabel_all.
  destruct (relabel_loop_stops labels tagField (zip lines results) i line y)
    as (printed & Hrun & Hlen & Hpos).
  - apply lookup_zip_with_Some. eauto.
  - done.
  - intros j l z Hj Hzip.
    apply lookup_zip_with_Some in Hzip as (l' & z' & ? & ? & ?).
    simplify_eq. eauto.
  - exists printed. split_and!; [done..|].
    intros j l z Hj Hl Hz. apply Hpos; [done|].
    apply lookup_zip_with_Some. eauto.
Qed.

Lemma relabel_all_partial_output_witness :
  ∃ printed : list string,
    relabel_all ["neg"; "pos"] 1
      [record ["1"; "neg"; "great movie"]; record ["2"; "neg"; "bad"]] [1; 2]
      = (printed, Raised)
    ∧ length printed = 1%nat
    ∧ ∀ (j : nat) l z, (j < 1)%nat →
        [record ["1"; "neg"; "great movie"]; record ["2"; "neg"; "bad"]] !! j
          = Some l →
        [1; 2] !! j = Some z → printed !! j = relabel ["neg"; "pos"] 1 l z.
Proof.
  apply (relabel_all_partial_output ["neg"; "pos"] 1
           [record ["1"; "neg"; "great movie"]; record ["2"; "neg"; "bad"]]
           [1; 2] 1 (record ["2"; "neg"; "bad"]) 2).
  - reflexivity.
  - reflexivity.
  - reflexivity.
  - intros [|j] l z Hj Hl Hz; [|lia]. simplify_eq/=. by eexists.
Defined.

(** X21. The cross-validation loop never looks at the test component of a
    fold: two sequences of pairs with the same train components give the
    same accuracies and leave the random source in the same state. *)
Theorem cv_loop_ignores_test_sets {rng : Type}
    (fit : fold_index → rng → option (Q * rng)) (count : nat)
    (folds folds' : list yielded) (g : rng) (acc : list Q) :
  Forall2 (λ item item', ∃ train test test',
             item = Split train test ∧ item' = Split train test')
          folds folds' →
  cv_loop fit count folds g acc = cv_loop fit count folds' g acc.
Proof.
  intros Hsame. revert count g acc.
  induction Hsame as [|item item' folds folds' (train & t & t' & -> & ->) _ IH];
    intros count g acc; [done|].
  destruct count as [|count]; [done|]. simpl.
  destruct (fit (Array train) g) as [[perf g']|]; [|done]. simpl. apply IH.
Qed.

Lemma cv_loop_ignores_test_sets_witness :
  cv_loop (train_on_fold half_net_train [[0; 1; 0; 0]; [0; 2; 0; 1]]) 2
          [Split [0] [1]; Split [1] [0]] tt []
    = cv_loop (train_on_fold half_net_train [[0; 1; 0; 0]; [0; 2; 0; 1]]) 2
              [Split [0] []; Split [1] [7; 8; 9]] tt [].
Proof.
  apply (cv_loop_ignores_test_sets
           (train_on_fold half_net_train [[0; 1; 0; 0]; [0; 2; 0; 1]]) 2
           [Split [0] [1]; Split [1] [0]]
           [Split [0] []; Split [1] [7; 8; 9]] tt []).
  repeat constructor; by eexists _, _, _.
Defined.

(** X22. Since [read_corpus] lets the encoder walk over the bytes of the
    text, only one-byte keys of the vocabulary can ever match: with a
    vocabulary that has no one-byte key, every row it returns holds zeros
    only. *)
Theorem read_corpus_zero_rows (lines : list string)
    (word_index : gmap string Z) (max_l pad : Z) (lower : bool)
    (textField : Z) (rows : list (list Z)) :
  (∀ w v, word_index !! w = Some v → String.length w ≠ 1%nat) →
  read_corpus lines word_index max_l pad lower textField = Some rows →
  Forall (Forall (λ z, z = 0)) rows.
Proof.
  intros Hkeys Hrows.
  pose proof (read_corpus_rows _ _ _ _ _ _ _ Hrows) as Hall. clear Hrows.
  assert (∀ text, known_indices word_index (chars text) = []) as Hnone.
  { intros text. apply known_indices_none. intros word Hword.
    destruct (word_index !! word) as [v|] eqn:Hv; [|done].
    destruct (Hkeys word v Hv). clear -Hword.
    induction text as [|c r IH]; simpl in Hword.
    - by apply elem_of_nil in Hword.
    - apply elem_of_cons in Hword as [->|Hword]; [done | by apply IH]. }
  induction Hall as [|line row lines rows (text & _ & ->) _ IH];
    [constructor|].
  constructor; [|done].
  unfold sent2indices. rewrite sent_loop_zeros, Hnone, take_nil, app_nil_r.
  apply Forall_app. split; apply Forall_zeros.
Qed.

Lemma read_corpus_zero_rows_witness :
  Forall (Forall (λ z, z = 0)) [[0; 0; 0; 0; 0; 0; 0]].
Proof.
  apply (read_corpus_zero_rows [record ["id"; "pos"; "hello world"]]
           {["hello" := 1; "world" := 2]} 5 1 true 2).
  - intros w v Hw.
    apply lookup_insert_Some in Hw as [[<- _]|[_ Hw]]; [discriminate|].
    apply lookup_singleton_Some in Hw as [<- _]. discriminate.
  - reflexivity.
Defined.

(** ** Training on a fold *)

(** The train component of every pair of the loop holds the indices that
    the test slice leaves. *)
Lemma kfold_loop_train_sizes (indices sizes : list Z) (current : Z) :
  Forall (λ s, 0 ≤ s) sizes → 0 ≤ current →
  current + Zsum sizes ≤ len indices →
  Forall2 (λ item s, ∃ train test,
             item = Split train test ∧ len train = len indices - s)
          (kfold_loop indices sizes current) sizes.
Proof.
  intros Hpos. revert current.
  induction Hpos as [|s sizes Hs Hpos IH]; intros current Hc Hlen.
  { constructor. }
  pose proof (Zsum_nonneg sizes Hpos) as Hsum.
  change (Zsum (s :: sizes)) with (s + Zsum sizes) in *.
  cbn [kfold_loop]. constructor; [|apply IH; lia].
  rewrite slice_to_inside, slice_from_inside by lia.
  eexists _, _. split; [done|].
  rewrite len_app. unfold len in *. rewrite length_take, length_drop. lia.
Qed.

Lemma Zsum_constant (l : list Z) (c : Z) :
  Forall (λ s, s = c) l → Zsum l = len l * c.
Proof.
  unfold Zsum, len. induction 1 as [|s l -> _ IH]; simpl; [done|].
  rewrite IH. lia.
Qed.

(** A loop that ends normally has unpacked every fold it went through and
    trained on its train component. *)
Lemma cv_loop_every_fold {rng : Type}
    (fit : fold_index → rng → option (Q * rng)) (count : nat)
    (folds : list yielded) (g : rng) (acc : list Q) :
  is_Some (cv_loop fit count folds g acc) →
  Forall (λ item, ∃ train_fold test_fold g0,
            unpack2 item = Some (train_fold, test_fold)
            ∧ is_Some (fit train_fold g0))
         (take count folds).
Proof.
  revert folds g acc.
  induction count as [|count IH]; intros folds g acc Hrun; simpl in Hrun.
  { rewrite take_0. constructor. }
  destruct folds as [|item folds]; [by destruct Hrun|].
  destruct (unpack2 item) as [[train_fold test_fold]|] eqn:Hitem;
    [|by destruct Hrun].
  simpl in Hrun.
  destruct (fit train_fold g) as [[perf g1]|] eqn:Hfit; [|by destruct Hrun].
  simpl in Hrun. simpl. constructor; [|by eapply IH].
  exists train_fold, test_fold, g. split; [done|]. rewrite Hfit. by eexists.
Qed.

(** X23. With a shuffle that permutes its argument, the training branch can
    report only when there are exactly two training rows and at most two
    folds are asked for: in every other case the train component of some
    fold is an index array without exactly one element, or a bare array
    that cannot be unpacked, and the loop raises before any report. *)
Theorem training_run_reports_only_two_rows {rng : Type} (seed : Z → rng)
    (shuffle : list Z → rng → list Z * rng)
    (net_train : list Z → rng → option (Q * rng)) (train : list (list Z))
    (args_cv : Z) :
  (∀ l g, (shuffle l g).1 ≡ₚ l) →
  is_Some (training_run seed shuffle net_train train args_cv) →
  len train = 2 ∧ args_cv ≤ 2.
Proof.
  intros Hshuffle Hrun. unfold training_run, cross_validation in Hrun.
  set (n := len train) in *.
  assert (0 ≤ n) as Hn by (unfold n, len; lia).
  destruct (Z.ltb_spec args_cv 2) as [Hlt|Hge].
  - split; [|lia]. unfold kfold in Hrun. simpl in Hrun.
    destruct (decide (n = 2)) as [|Hne]; [done|].
    pose proof (length_seqZ 0 n) as Hlen. unfold arange in Hrun.
    destruct (seqZ 0 n) as [|a [|b [|c l]]]; simpl in *;
      try (by destruct Hrun). lia.
  - unfold kfold in Hrun.
    destruct (Z.ltb_spec args_cv 2) as [|_]; [lia|].
    specialize (Hshuffle (arange n) (seed 3435)).
    destruct (shuffle (arange n) (seed 3435)) as [indices g]. simpl in *.
    assert (len indices = n) as Hlen.
    { unfold len. rewrite (Permutation_length Hshuffle).
      unfold arange. rewrite length_seqZ. lia. }
    pose proof (kfold_loop_train_sizes indices (fold_sizes n args_cv) 0
                  (fold_sizes_nonneg n args_cv Hn ltac:(lia)) ltac:(lia)
                  ltac:(rewrite fold_sizes_sum; lia)) as Hsizes.
    assert (is_Some (cv_loop (train_on_fold net_train train)
                       (Z.to_nat args_cv)
                       (kfold_loop indices (fold_sizes n args_cv) 0) g []))
      as Hloop.
    { destruct (cv_loop _ _ _ g []) as [[results g']|]; [by eexists|].
      by destruct Hrun. }
    apply cv_loop_every_fold in Hloop.
    rewrite take_ge in Hloop
      by (rewrite (Forall2_length _ _ _ Hsizes), length_fold_sizes; lia).
    assert (Forall (λ s, s = n - 1) (fold_sizes n args_cv)) as Hall.
    { revert Hloop Hsizes. clear -Hlen.
      generalize (kfold_loop indices (fold_sizes n args_cv) 0).
      generalize (fold_sizes n args_cv).
      intros sizes0 items0 Hloop Hsizes.
      induction Hsizes as [|item s items sizes (tr & te & -> & Htr) _ IH];
        [constructor|].
      apply Forall_cons in Hloop as [(tf & tt' & g0 & Hun & Hfit) Hloop].
      constructor; [|by apply IH].
      simpl in Hun. simplify_eq. unfold train_on_fold in Hfit.
      destruct tr as [|i [|j tr]]; simpl in Hfit; try (by destruct Hfit).
      unfold len in *. simpl in *. lia. }
    pose proof (Zsum_constant _ _ Hall) as Hsum.
    rewrite fold_sizes_sum in Hsum by lia.
    unfold len in Hsum. rewrite length_fold_sizes in Hsum.
    assert (Z.of_nat (Z.to_nat args_cv) = args_cv) as Hid by lia.
    rewrite Hid in Hsum. clearbody n.
    assert ((args_cv - 1) * (n - 1) = 1) as Hprod by lia.
    destruct (Z.eq_mul_1 _ _ Hprod) as [Hcv|Hcv]; [|lia].
    rewrite Hcv in Hprod. lia.
Qed.

Lemma training_run_reports_only_two_rows_witness :
  len [[0; 1; 0; 0]; [0; 2; 0; 1]] = 2 ∧ 2 ≤ 2.
Proof.
  apply (training_run_reports_only_two_rows
           (λ _, tt) reverse_shuffle half_net_train
           [[0; 1; 0; 0]; [0; 2; 0; 1]] 2).
  - intros l g. simpl. apply reverse_Permutation.
  - eexists. reflexivity.
Defined.
